(** * mavros: setpoint mixins and the MagCalStatus plugin

  A shallow embedding of

  - [mavros/src/plugins/mag_calibration_status.cpp]: the plugin that merges
    the per-compass [MAG_CAL_PROGRESS] reports into one published byte and
    forwards [MAG_CAL_REPORT.cal_status];
  - [mavros/include/mavros/setpoint_mixin.hpp]: the three mixins that fill a
    [SET_POSITION_TARGET_LOCAL_NED], a [SET_POSITION_TARGET_GLOBAL_INT] or a
    [SET_ATTITUDE_TARGET] message and send it.

  Unsigned C++ integers are [Z] with the wrap-around written out, the
  [uint8_t[3]] array is a list read and written by index, floating-point
  numbers are [SpecFloat] values (binary64 for [double], binary32 for
  [float]), and the effects (plugin state, publishers, the outgoing link)
  are threaded through a small state monad. *)

From Stdlib Require Import ZArith List Bool Lia.
From Stdlib Require Import Floats.SpecFloat.
From stdpp Require Import base list.

Import ListNotations.
Local Open Scope Z_scope.

(** ** Fixed-width integers *)

Module Fixed.

(** Conversion of an [int] to [uint8_t]: reduction modulo 2^8. *)
Definition to_uint8 (z : Z) : Z := z mod 256.

Definition is_uint8 (z : Z) : Prop := 0 <= z < 256.

(** Number of set bits of a byte. *)
Definition popcount8 (z : Z) : Z :=
  fold_left (fun n i => if Z.testbit z i then n + 1 else n) (seqZ 0 8) 0.

End Fixed.

(** ** A state monad for code with side effects *)

Module St.

Definition State (S A : Type) : Type := S -> A * S.

Definition ret {S A} (a : A) : State S A := fun s => (a, s).

Definition bind {S A B} (m : State S A) (k : A -> State S B) : State S B :=
  fun s => let (a, s') := m s in k a s'.

Definition gets {S A} (f : S -> A) : State S A := fun s => (f s, s).

Definition modify {S} (f : S -> S) : State S unit := fun s => (tt, f s).

(** State left by a [void] function. *)
Definition exec {S A} (m : State S A) (s : S) : S := snd (m s).

(** [if (c) { m }] without an [else] branch. *)
Definition when {S} (c : bool) (m : State S unit) : State S unit :=
  if c then m else ret tt.

End St.

Notation "x <- m ;; k" := (St.bind m (fun x => k))
(at level 20, m at level 99, k at level 200, only parsing).
Notation "m ;; k" := (St.bind m (fun _ => k))
(at level 100, k at level 200, right associativity, only parsing).

(** ** [mag_calibration_status.cpp] *)

Module MagCal.
Import Fixed St.

(** The fields of [ardupilotmega::msg::MAG_CAL_PROGRESS] the plugin reads;
    all three are [uint8_t]. *)
Record MAG_CAL_PROGRESS := {
  compass_id : Z;
  cal_mask : Z;
  completion_pct : Z
}.

(** The field of [ardupilotmega::msg::MAG_CAL_REPORT] the plugin reads
    ([uint8_t]). *)
Record MAG_CAL_REPORT := { cal_status : Z }.

Definition wf_progress (mp : MAG_CAL_PROGRESS) : Prop :=
  is_uint8 (compass_id mp) /\ is_uint8 (cal_mask mp) /\
  is_uint8 (completion_pct mp).

(** The plugin object: the [uint8_t _rgCompassCalProgress[3]] member and,
    for each of the two publishers, the [std_msgs::UInt8] payloads
    published so far (oldest first).  [mcs_pub] is advertised as
    ["status"], [mcr_pub] as ["report"]. *)
Record MagCalStatusPlugin := {
  _rgCompassCalProgress : list Z;
  mcs_pub : list Z;
  mcr_pub : list Z
}.

(** [uint8_t _rgCompassCalProgress[3] = {0}] and two fresh publishers. *)
Definition initial : MagCalStatusPlugin :=
  {| _rgCompassCalProgress := [0; 0; 0]; mcs_pub := []; mcr_pub := [] |}.

(** [_rgCompassCalProgress[i]] as an rvalue. *)
Definition load_progress (i : Z) : State MagCalStatusPlugin Z :=
  gets (fun p => default 0 (_rgCompassCalProgress p !! Z.to_nat i)).

(** [_rgCompassCalProgress[i] = v]. *)
Definition store_progress (i v : Z) : State MagCalStatusPlugin unit :=
  modify (fun p =>
    {| _rgCompassCalProgress := <[Z.to_nat i := v]> (_rgCompassCalProgress p);
       mcs_pub := mcs_pub p;
       mcr_pub := mcr_pub p |}).

(** [mcs_pub.publish(mcs)] with [mcs->data = v]. *)
Definition publish_mcs (v : Z) : State MagCalStatusPlugin unit :=
  modify (fun p =>
    {| _rgCompassCalProgress := _rgCompassCalProgress p;
       mcs_pub := mcs_pub p ++ [v];
       mcr_pub := mcr_pub p |}).

(** [mcr_pub.publish(mcr)] with [mcr->data = v]. *)
Definition publish_mcr (v : Z) : State MagCalStatusPlugin unit :=
  modify (fun p =>
    {| _rgCompassCalProgress := _rgCompassCalProgress p;
       mcs_pub := mcs_pub p;
       mcr_pub := mcr_pub p ++ [v] |}).

(** The counting loop of [handle_status]:
    [for (int i=0; i<3; i++) if (mp.cal_mask & (1 << i)) compassCalCount++;] *)
Definition compassCalCount (mask : Z) : Z :=
  fold_left
    (fun count i => if Z.land mask (Z.shiftl 1 i) =? 0 then count else count + 1)
    (seqZ 0 3) 0.

(** [handle_status].  The division is the [int] division of C++ (both
    operands are promoted, the quotient is truncated), the two stores into
    [uint8_t] objects convert back with [to_uint8]. *)
Definition handle_status (mp : MAG_CAL_PROGRESS) : State MagCalStatusPlugin unit :=
  let count := compassCalCount (cal_mask mp) in
  when ((compass_id mp <? 3) && negb (count =? 0))
    (store_progress (compass_id mp) (to_uint8 (completion_pct mp ÷ count))) ;;
  p0 <- load_progress 0 ;;
  p1 <- load_progress 1 ;;
  p2 <- load_progress 2 ;;
  publish_mcs (to_uint8 (p0 + p1 + p2)).

(** [handle_report]. *)
Definition handle_report (mr : MAG_CAL_REPORT) : State MagCalStatusPlugin unit :=
  publish_mcr (cal_status mr).

(** The array keeps its three [uint8_t] cells. *)
Definition wf_plugin (p : MagCalStatusPlugin) : Prop :=
  length (_rgCompassCalProgress p) = 3%nat /\
  Forall is_uint8 (_rgCompassCalProgress p).

(** Sum of the three cells, as the [int] expression of the source. *)
Definition progress_sum (p : MagCalStatusPlugin) : Z :=
  default 0 (_rgCompassCalProgress p !! 0%nat) +
  default 0 (_rgCompassCalProgress p !! 1%nat) +
  default 0 (_rgCompassCalProgress p !! 2%nat).

(** Value of bit [i] of [m], as a number. *)
Definition bit (m i : Z) : Z := if Z.testbit m i then 1 else 0.

(** The array after the conditional store of [handle_status]. *)
Definition updated_progress (mp : MAG_CAL_PROGRESS) (l : list Z) : list Z :=
  if (compass_id mp <? 3) && negb (compassCalCount (cal_mask mp) =? 0)
  then <[Z.to_nat (compass_id mp) :=
           to_uint8 (completion_pct mp ÷ compassCalCount (cal_mask mp))]> l
  else l.

(** The two progress reports of the calibration scenario, both with compasses
    0 and 1 under calibration. *)
Definition report_a : MAG_CAL_PROGRESS :=
  {| compass_id := 0; cal_mask := 3; completion_pct := 50 |}.
Definition report_b : MAG_CAL_PROGRESS :=
  {| compass_id := 1; cal_mask := 3; completion_pct := 100 |}.

(** Compass [i], calibrated alone, reported at 100. *)
Definition report_done (i : Z) : MAG_CAL_PROGRESS :=
  {| compass_id := i; cal_mask := Z.shiftl 1 i; completion_pct := 100 |}.

(** Plugin states the handlers can produce from [initial]. *)
Inductive reachable : MagCalStatusPlugin -> Prop :=
| reach_initial : reachable initial
| reach_status p mp :
    reachable p -> wf_progress mp -> reachable (exec (handle_status mp) p)
| reach_report p mr :
    reachable p -> is_uint8 (cal_status mr) -> reachable (exec (handle_report mr) p).

(** *** Subscriptions and message routing *)

(** A decoded message on its way to the plugins: one of the two kinds the
    plugin subscribes to, or any other. *)
Variant incoming :=
| Progress (mp : MAG_CAL_PROGRESS)
| Report (mr : MAG_CAL_REPORT)
| Other.

(** A subscription made by [make_handler]: the message type is deduced from
    the second argument of the handler, which runs on the messages of that
    type and on no other. *)
Definition Subscription : Type := incoming -> option (State MagCalStatusPlugin unit).

Definition make_handler_status : Subscription := fun msg =>
  match msg with
  | Progress mp => Some (handle_status mp)
  | _ => None
  end.

Definition make_handler_report : Subscription := fun msg =>
  match msg with
  | Report mr => Some (handle_report mr)
  | _ => None
  end.

(** [get_subscriptions]. *)
Definition get_subscriptions : list Subscription :=
  [make_handler_status; make_handler_report].

(** Routing of one message: the subscriptions are tried in order and those
    made for the type of the message run. *)
Definition deliver (msg : incoming) : State MagCalStatusPlugin unit :=
  fold_right
    (fun (sub : Subscription) rest =>
       match sub msg with
       | Some handler => handler ;; rest
       | None => rest
       end)
    (ret tt) get_subscriptions.

(** A stream of messages, oldest first. *)
Fixpoint deliver_all (msgs : list incoming) : State MagCalStatusPlugin unit :=
  match msgs with
  | [] => ret tt
  | msg :: rest => deliver msg ;; deliver_all rest
  end.

(** The [cal_status] of the final reports of a stream, in order, and the
    number of its progress reports. *)
Fixpoint reports_of (msgs : list incoming) : list Z :=
  match msgs with
  | [] => []
  | Report mr :: rest => cal_status mr :: reports_of rest
  | _ :: rest => reports_of rest
  end.

Fixpoint progress_count (msgs : list incoming) : nat :=
  match msgs with
  | [] => 0%nat
  | Progress _ :: rest => S (progress_count rest)
  | _ :: rest => progress_count rest
  end.

(** Both publishers are advertised latched ([advertise(topic, 2, true)]): a
    subscriber that joins late receives the last message published. *)
Definition latched (published : list Z) : option Z := last published.

(** A progress report of a calibration session over the compasses of [mask]:
    it carries that mask, comes from one of its compasses and reports at most
    100 percent. *)
Definition session_report (mask : Z) (mp : MAG_CAL_PROGRESS) : Prop :=
  cal_mask mp = mask /\
  0 <= compass_id mp < 3 /\ Z.testbit mask (compass_id mp) = true /\
  0 <= completion_pct mp <= 100.

Definition session_message (mask : Z) (msg : incoming) : Prop :=
  match msg with
  | Progress mp => session_report mask mp
  | _ => True
  end.

(** The share of the progress bar a compass of the session can fill. *)
Definition share (mask i : Z) : Z :=
  if Z.testbit mask i then 100 ÷ compassCalCount mask else 0.

(** The cells during such a session: compass [i] within its share. *)
Definition within_shares (mask : Z) (l : list Z) : Prop :=
  exists a b c : Z,
    l = [a; b; c] /\
    0 <= a <= share mask 0 /\ 0 <= b <= share mask 1 /\ 0 <= c <= share mask 2.

(** The progress reports of a stream, the other messages left out. *)
Fixpoint progress_only (msgs : list incoming) : list incoming :=
  match msgs with
  | [] => []
  | Progress mp :: rest => Progress mp :: progress_only rest
  | _ :: rest => progress_only rest
  end.

End MagCal.

(** ** Floating-point numbers *)

Module Float.

(** A C++ [double] is an IEEE 754 binary64 number and a [float] a binary32
    number; both are [spec_float] values, kept apart by their constructor so
    that every change of format is written out. *)
Variant float64 := F64 (v : spec_float).
Variant float32 := F32 (v : spec_float).

Definition valid64 (d : float64) : bool :=
  let 'F64 v := d in valid_binary 53 1024 v.

Definition valid32 (f : float32) : bool :=
  let 'F32 v := f in valid_binary 24 128 v.

(** Change of format: a finite number is rounded to the nearest number of the
    target format (ties to even) and becomes an infinity beyond its range;
    zeros, infinities and NaN are kept. *)
Definition convert (prec emax : Z) (v : spec_float) : spec_float :=
  match v with
  | S754_finite s m e => binary_round prec emax s m e
  | _ => v
  end.

(** The implicit conversion of an assignment of a [double] to a [float]
    object, as in [sp.x = p.x()]. *)
Definition double_to_float (d : float64) : float32 :=
  let 'F64 v := d in F32 (convert 24 128 v).

(** The promotion of a [float] to [double], as when a [float] field is read
    back and compared with a [double]. *)
Definition float_to_double (f : float32) : float64 :=
  let 'F32 v := f in F64 (convert 53 1024 v).

(** A [double] that survives the trip through a [float]. *)
Definition representable_in_float (d : float64) : Prop :=
  float_to_double (double_to_float d) = d.

Definition opp64 (d : float64) : float64 :=
  let 'F64 v := d in F64 (SFopp v).

(** [a == b] on [double]s. *)
Definition eqb64 (a b : float64) : bool :=
  let 'F64 u := a in let 'F64 v := b in SFeqb u v.

(** [+0.0f], the value of a value-initialised [float]. *)
Definition zero32 : float32 := F32 (S754_zero false).

Definition is_zero32 (f : float32) : bool :=
  match f with
  | F32 (S754_zero false) => true
  | _ => false
  end.

(** Some constants: 0, 1 and 1/2 as [double]s, 1 and 1/2 as [float]s. *)
Definition zero64 : float64 := F64 (S754_zero false).
Definition one64 : float64 := F64 (S754_finite false 4503599627370496 (-52)).
Definition half64 : float64 := F64 (S754_finite false 4503599627370496 (-53)).
Definition one32 : float32 := F32 (S754_finite false 8388608 (-23)).
Definition half32 : float32 := F32 (S754_finite false 8388608 (-24)).
(** The [double]s nearest to 0.1, 0.6 and 0.8:
    [0x1.999999999999ap-4], [0x1.3333333333333p-1], [0x1.999999999999ap-1]. *)
Definition tenth64 : float64 := F64 (S754_finite false 7205759403792794 (-56)).
Definition six_tenths64 : float64 := F64 (S754_finite false 5404319552844595 (-53)).
Definition eight_tenths64 : float64 := F64 (S754_finite false 7205759403792794 (-53)).

(** Unary minus on [float]s. *)
Definition opp32 (f : float32) : float32 :=
  let 'F32 v := f in F32 (SFopp v).

End Float.

(** ** Eigen vectors and quaternions *)

Module Vector3d.

(** [Eigen::Vector3d]: three [double]s, read with [x()], [y()], [z()]. *)
Record t := mk { x : Float.float64; y : Float.float64; z : Float.float64 }.

(** The vector read back from three [float] fields. *)
Definition of_floats (fx fy fz : Float.float32) : t :=
  mk (Float.float_to_double fx) (Float.float_to_double fy) (Float.float_to_double fz).

(** The vector with each component taken through a [float]. *)
Definition through_float (v : t) : t :=
  of_floats (Float.double_to_float (x v)) (Float.double_to_float (y v))
    (Float.double_to_float (z v)).

(** Every component survives the trip through a [float]. *)
Definition representable (v : t) : Prop :=
  Float.representable_in_float (x v) /\ Float.representable_in_float (y v) /\
  Float.representable_in_float (z v).

(** Two vectors that agree once their components are [float]s. *)
Definition same_floats (v v' : t) : Prop :=
  Float.double_to_float (x v) = Float.double_to_float (x v') /\
  Float.double_to_float (y v) = Float.double_to_float (y v') /\
  Float.double_to_float (z v) = Float.double_to_float (z v').

(** The opposite vector, [-v]. *)
Definition neg (v : t) : t :=
  mk (Float.opp64 (x v)) (Float.opp64 (y v)) (Float.opp64 (z v)).

End Vector3d.

Module Quaterniond.

(** [Eigen::Quaterniond]: four [double]s, read with [w()], [x()], [y()], [z()]. *)
Record t := mk {
  w : Float.float64; x : Float.float64; y : Float.float64; z : Float.float64
}.

(** The opposite quaternion, which stands for the same rotation. *)
Definition neg (q : t) : t :=
  mk (Float.opp64 (w q)) (Float.opp64 (x q)) (Float.opp64 (y q)) (Float.opp64 (z q)).

(** Equality up to the global sign. *)
Definition eq_up_to_sign (q1 q2 : t) : Prop := q1 = q2 \/ q1 = neg q2.

(** The quaternion with each component taken through a [float]. *)
Definition through_float (q : t) : t :=
  mk (Float.float_to_double (Float.double_to_float (w q)))
     (Float.float_to_double (Float.double_to_float (x q)))
     (Float.float_to_double (Float.double_to_float (y q)))
     (Float.float_to_double (Float.double_to_float (z q))).

Definition representable (q : t) : Prop :=
  Float.representable_in_float (w q) /\ Float.representable_in_float (x q) /\
  Float.representable_in_float (y q) /\ Float.representable_in_float (z q).

End Quaterniond.

(** ** MAVLink messages *)

(** Content of a message field: an integer, a [float] or an array of
    [float]s. *)
Variant value :=
| VInt (n : Z)
| VFloat (f : Float.float32)
| VArray (l : list Float.float32).

Definition is_zero (v : value) : bool :=
  match v with
  | VInt n => n =? 0
  | VFloat f => Float.is_zero32 f
  | VArray l => forallb Float.is_zero32 l
  end.

Module SET_POSITION_TARGET_LOCAL_NED.
Import Float.

(** [mavlink::common::msg::SET_POSITION_TARGET_LOCAL_NED].  The structure
    is generated from the MAVLink message definition the mixin links to
    (common.html#SET_POSITION_TARGET_LOCAL_NED) and is not part of the
    sources at hand; the fields and their types are those of that
    definition: [uint32_t time_boot_ms], [uint8_t target_system],
    [uint8_t target_component], [uint8_t coordinate_frame],
    [uint16_t type_mask] and eleven [float]s. *)
Record t := mk {
  time_boot_ms : Z;
  target_system : Z;
  target_component : Z;
  coordinate_frame : Z;
  type_mask : Z;
  x : float32;
  y : float32;
  z : float32;
  vx : float32;
  vy : float32;
  vz : float32;
  afx : float32;
  afy : float32;
  afz : float32;
  yaw : float32;
  yaw_rate : float32
}.

(** Value-initialised message ([sp = {}]): every field zero. *)
Definition zero : t :=
  mk 0 0 0 0 0 zero32 zero32 zero32 zero32 zero32 zero32 zero32 zero32 zero32 zero32 zero32.

(** Field stores [sp.f = v]. *)
Definition set_time_boot_ms (v : Z) (sp : t) : t :=
  let '(mk _ a1 a2 a3 a4 a5 a6 a7 a8 a9 a10 a11 a12 a13 a14 a15) := sp in
  mk v a1 a2 a3 a4 a5 a6 a7 a8 a9 a10 a11 a12 a13 a14 a15.
Definition set_target_system (v : Z) (sp : t) : t :=
  let '(mk a0 _ a2 a3 a4 a5 a6 a7 a8 a9 a10 a11 a12 a13 a14 a15) := sp in
  mk a0 v a2 a3 a4 a5 a6 a7 a8 a9 a10 a11 a12 a13 a14 a15.
Definition set_target_component (v : Z) (sp : t) : t :=
  let '(mk a0 a1 _ a3 a4 a5 a6 a7 a8 a9 a10 a11 a12 a13 a14 a15) := sp in
  mk a0 a1 v a3 a4 a5 a6 a7 a8 a9 a10 a11 a12 a13 a14 a15.
Definition set_coordinate_frame (v : Z) (sp : t) : t :=
  let '(mk a0 a1 a2 _ a4 a5 a6 a7 a8 a9 a10 a11 a12 a13 a14 a15) := sp in
  mk a0 a1 a2 v a4 a5 a6 a7 a8 a9 a10 a11 a12 a13 a14 a15.
Definition set_type_mask (v : Z) (sp : t) : t :=
  let '(mk a0 a1 a2 a3 _ a5 a6 a7 a8 a9 a10 a11 a12 a13 a14 a15) := sp in
  mk a0 a1 a2 a3 v a5 a6 a7 a8 a9 a10 a11 a12 a13 a14 a15.
Definition set_x (v : float32) (sp : t) : t :=
  let '(mk a0 a1 a2 a3 a4 _ a6 a7 a8 a9 a10 a11 a12 a13 a14 a15) := sp in
  mk a0 a1 a2 a3 a4 v a6 a7 a8 a9 a10 a11 a12 a13 a14 a15.
Definition set_y (v : float32) (sp : t) : t :=
  let '(mk a0 a1 a2 a3 a4 a5 _ a7 a8 a9 a10 a11 a12 a13 a14 a15) := sp in
  mk a0 a1 a2 a3 a4 a5 v a7 a8 a9 a10 a11 a12 a13 a14 a15.
Definition set_z (v : float32) (sp : t) : t :=
  let '(mk a0 a1 a2 a3 a4 a5 a6 _ a8 a9 a10 a11 a12 a13 a14 a15) := sp in
  mk a0 a1 a2 a3 a4 a5 a6 v a8 a9 a10 a11 a12 a13 a14 a15.
Definition set_vx (v : float32) (sp : t) : t :=
  let '(mk a0 a1 a2 a3 a4 a5 a6 a7 _ a9 a10 a11 a12 a13 a14 a15) := sp in
  mk a0 a1 a2 a3 a4 a5 a6 a7 v a9 a10 a11 a12 a13 a14 a15.
Definition set_vy (v : float32) (sp : t) : t :=
  let '(mk a0 a1 a2 a3 a4 a5 a6 a7 a8 _ a10 a11 a12 a13 a14 a15) := sp in
  mk a0 a1 a2 a3 a4 a5 a6 a7 a8 v a10 a11 a12 a13 a14 a15.
Definition set_vz (v : float32) (sp : t) : t :=
  let '(mk a0 a1 a2 a3 a4 a5 a6 a7 a8 a9 _ a11 a12 a13 a14 a15) := sp in
  mk a0 a1 a2 a3 a4 a5 a6 a7 a8 a9 v a11 a12 a13 a14 a15.
Definition set_afx (v : float32) (sp : t) : t :=
  let '(mk a0 a1 a2 a3 a4 a5 a6 a7 a8 a9 a10 _ a12 a13 a14 a15) := sp in
  mk a0 a1 a2 a3 a4 a5 a6 a7 a8 a9 a10 v a12 a13 a14 a15.
Definition set_afy (v : float32) (sp : t) : t :=
  let '(mk a0 a1 a2 a3 a4 a5 a6 a7 a8 a9 a10 a11 _ a13 a14 a15) := sp in
  mk a0 a1 a2 a3 a4 a5 a6 a7 a8 a9 a10 a11 v a13 a14 a15.
Definition set_afz (v : float32) (sp : t) : t :=
  let '(mk a0 a1 a2 a3 a4 a5 a6 a7 a8 a9 a10 a11 a12 _ a14 a15) := sp in
  mk a0 a1 a2 a3 a4 a5 a6 a7 a8 a9 a10 a11 a12 v a14 a15.
Definition set_yaw (v : float32) (sp : t) : t :=
  let '(mk a0 a1 a2 a3 a4 a5 a6 a7 a8 a9 a10 a11 a12 a13 _ a15) := sp in
  mk a0 a1 a2 a3 a4 a5 a6 a7 a8 a9 a10 a11 a12 a13 v a15.
Definition set_yaw_rate (v : float32) (sp : t) : t :=
  let '(mk a0 a1 a2 a3 a4 a5 a6 a7 a8 a9 a10 a11 a12 a13 a14 _) := sp in
  mk a0 a1 a2 a3 a4 a5 a6 a7 a8 a9 a10 a11 a12 a13 a14 v.

(** The fields by name, and a uniform view of their contents. *)
Inductive field :=
| f_time_boot_ms
| f_target_system
| f_target_component
| f_coordinate_frame
| f_type_mask
| f_x
| f_y
| f_z
| f_vx
| f_vy
| f_vz
| f_afx
| f_afy
| f_afz
| f_yaw
| f_yaw_rate.

Definition get (f : field) (sp : t) : value :=
  match f with
  | f_time_boot_ms => VInt (time_boot_ms sp)
  | f_target_system => VInt (target_system sp)
  | f_target_component => VInt (target_component sp)
  | f_coordinate_frame => VInt (coordinate_frame sp)
  | f_type_mask => VInt (type_mask sp)
  | f_x => VFloat (x sp)
  | f_y => VFloat (y sp)
  | f_z => VFloat (z sp)
  | f_vx => VFloat (vx sp)
  | f_vy => VFloat (vy sp)
  | f_vz => VFloat (vz sp)
  | f_afx => VFloat (afx sp)
  | f_afy => VFloat (afy sp)
  | f_afz => VFloat (afz sp)
  | f_yaw => VFloat (yaw sp)
  | f_yaw_rate => VFloat (yaw_rate sp)
  end.

End SET_POSITION_TARGET_LOCAL_NED.

Module SET_POSITION_TARGET_GLOBAL_INT.
Import Float.

(** [mavlink::common::msg::SET_POSITION_TARGET_GLOBAL_INT], from the message
    definition the mixin links to: as the local message, with
    [int32_t lat_int], [int32_t lon_int] and [float alt] in place of
    [x], [y] and [z]. *)
Record t := mk {
  time_boot_ms : Z;
  target_system : Z;
  target_component : Z;
  coordinate_frame : Z;
  type_mask : Z;
  lat_int : Z;
  lon_int : Z;
  alt : float32;
  vx : float32;
  vy : float32;
  vz : float32;
  afx : float32;
  afy : float32;
  afz : float32;
  yaw : float32;
  yaw_rate : float32
}.

(** Value-initialised message ([sp = {}]): every field zero. *)
Definition zero : t :=
  mk 0 0 0 0 0 0 0 zero32 zero32 zero32 zero32 zero32 zero32 zero32 zero32 zero32.

(** Field stores [sp.f = v]. *)
Definition set_time_boot_ms (v : Z) (sp : t) : t :=
  let '(mk _ a1 a2 a3 a4 a5 a6 a7 a8 a9 a10 a11 a12 a13 a14 a15) := sp in
  mk v a1 a2 a3 a4 a5 a6 a7 a8 a9 a10 a11 a12 a13 a14 a15.
Definition set_target_system (v : Z) (sp : t) : t :=
  let '(mk a0 _ a2 a3 a4 a5 a6 a7 a8 a9 a10 a11 a12 a13 a14 a15) := sp in
  mk a0 v a2 a3 a4 a5 a6 a7 a8 a9 a10 a11 a12 a13 a14 a15.
Definition set_target_component (v : Z) (sp : t) : t :=
  let '(mk a0 a1 _ a3 a4 a5 a6 a7 a8 a9 a10 a11 a12 a13 a14 a15) := sp in
  mk a0 a1 v a3 a4 a5 a6 a7 a8 a9 a10 a11 a12 a13 a14 a15.
Definition set_coordinate_frame (v : Z) (sp : t) : t :=
  let '(mk a0 a1 a2 _ a4 a5 a6 a7 a8 a9 a10 a11 a12 a13 a14 a15) := sp in
  mk a0 a1 a2 v a4 a5 a6 a7 a8 a9 a10 a11 a12 a13 a14 a15.
Definition set_type_mask (v : Z) (sp : t) : t :=
  let '(mk a0 a1 a2 a3 _ a5 a6 a7 a8 a9 a10 a11 a12 a13 a14 a15) := sp in
  mk a0 a1 a2 a3 v a5 a6 a7 a8 a9 a10 a11 a12 a13 a14 a15.
Definition set_lat_int (v : Z) (sp : t) : t :=
  let '(mk a0 a1 a2 a3 a4 _ a6 a7 a8 a9 a10 a11 a12 a13 a14 a15) := sp in
  mk a0 a1 a2 a3 a4 v a6 a7 a8 a9 a10 a11 a12 a13 a14 a15.
Definition set_lon_int (v : Z) (sp : t) : t :=
  let '(mk a0 a1 a2 a3 a4 a5 _ a7 a8 a9 a10 a11 a12 a13 a14 a15) := sp in
  mk a0 a1 a2 a3 a4 a5 v a7 a8 a9 a10 a11 a12 a13 a14 a15.
Definition set_alt (v : float32) (sp : t) : t :=
  let '(mk a0 a1 a2 a3 a4 a5 a6 _ a8 a9 a10 a11 a12 a13 a14 a15) := sp in
  mk a0 a1 a2 a3 a4 a5 a6 v a8 a9 a10 a11 a12 a13 a14 a15.
Definition set_vx (v : float32) (sp : t) : t :=
  let '(mk a0 a1 a2 a3 a4 a5 a6 a7 _ a9 a10 a11 a12 a13 a14 a15) := sp in
  mk a0 a1 a2 a3 a4 a5 a6 a7 v a9 a10 a11 a12 a13 a14 a15.
Definition set_vy (v : float32) (sp : t) : t :=
  let '(mk a0 a1 a2 a3 a4 a5 a6 a7 a8 _ a10 a11 a12 a13 a14 a15) := sp in
  mk a0 a1 a2 a3 a4 a5 a6 a7 a8 v a10 a11 a12 a13 a14 a15.
Definition set_vz (v : float32) (sp : t) : t :=
  let '(mk a0 a1 a2 a3 a4 a5 a6 a7 a8 a9 _ a11 a12 a13 a14 a15) := sp in
  mk a0 a1 a2 a3 a4 a5 a6 a7 a8 a9 v a11 a12 a13 a14 a15.
Definition set_afx (v : float32) (sp : t) : t :=
  let '(mk a0 a1 a2 a3 a4 a5 a6 a7 a8 a9 a10 _ a12 a13 a14 a15) := sp in
  mk a0 a1 a2 a3 a4 a5 a6 a7 a8 a9 a10 v a12 a13 a14 a15.
Definition set_afy (v : float32) (sp : t) : t :=
  let '(mk a0 a1 a2 a3 a4 a5 a6 a7 a8 a9 a10 a11 _ a13 a14 a15) := sp in
  mk a0 a1 a2 a3 a4 a5 a6 a7 a8 a9 a10 a11 v a13 a14 a15.
Definition set_afz (v : float32) (sp : t) : t :=
  let '(mk a0 a1 a2 a3 a4 a5 a6 a7 a8 a9 a10 a11 a12 _ a14 a15) := sp in
  mk a0 a1 a2 a3 a4 a5 a6 a7 a8 a9 a10 a11 a12 v a14 a15.
Definition set_yaw (v : float32) (sp : t) : t :=
  let '(mk a0 a1 a2 a3 a4 a5 a6 a7 a8 a9 a10 a11 a12 a13 _ a15) := sp in
  mk a0 a1 a2 a3 a4 a5 a6 a7 a8 a9 a10 a11 a12 a13 v a15.
Definition set_yaw_rate (v : float32) (sp : t) : t :=
  let '(mk a0 a1 a2 a3 a4 a5 a6 a7 a8 a9 a10 a11 a12 a13 a14 _) := sp in
  mk a0 a1 a2 a3 a4 a5 a6 a7 a8 a9 a10 a11 a12 a13 a14 v.

(** The fields by name, and a uniform view of their contents. *)
Inductive field :=
| f_time_boot_ms
| f_target_system
| f_target_component
| f_coordinate_frame
| f_type_mask
| f_lat_int
| f_lon_int
| f_alt
| f_vx
| f_vy
| f_vz
| f_afx
| f_afy
| f_afz
| f_yaw
| f_yaw_rate.

Definition get (f : field) (sp : t) : value :=
  match f with
  | f_time_boot_ms => VInt (time_boot_ms sp)
  | f_target_system => VInt (target_system sp)
  | f_target_component => VInt (target_component sp)
  | f_coordinate_frame => VInt (coordinate_frame sp)
  | f_type_mask => VInt (type_mask sp)
  | f_lat_int => VInt (lat_int sp)
  | f_lon_int => VInt (lon_int sp)
  | f_alt => VFloat (alt sp)
  | f_vx => VFloat (vx sp)
  | f_vy => VFloat (vy sp)
  | f_vz => VFloat (vz sp)
  | f_afx => VFloat (afx sp)
  | f_afy => VFloat (afy sp)
  | f_afz => VFloat (afz sp)
  | f_yaw => VFloat (yaw sp)
  | f_yaw_rate => VFloat (yaw_rate sp)
  end.

End SET_POSITION_TARGET_GLOBAL_INT.

Module SET_ATTITUDE_TARGET.
Import Float.

(** [mavlink::common::msg::SET_ATTITUDE_TARGET], from the message definition
    the mixin links to: [uint32_t time_boot_ms], [uint8_t target_system],
    [uint8_t target_component], [uint8_t type_mask], [float q[4]], three
    [float] body rates, [float thrust] and the extension field
    [float thrust_body[3]]. *)
Record t := mk {
  time_boot_ms : Z;
  target_system : Z;
  target_component : Z;
  type_mask : Z;
  q : list float32;
  body_roll_rate : float32;
  body_pitch_rate : float32;
  body_yaw_rate : float32;
  thrust : float32;
  thrust_body : list float32
}.

(** Value-initialised message ([sp = {}]): every field zero. *)
Definition zero : t :=
  mk 0 0 0 0 [zero32; zero32; zero32; zero32] zero32 zero32 zero32 zero32 [zero32; zero32; zero32].

(** Field stores [sp.f = v]. *)
Definition set_time_boot_ms (v : Z) (sp : t) : t :=
  let '(mk _ a1 a2 a3 a4 a5 a6 a7 a8 a9) := sp in
  mk v a1 a2 a3 a4 a5 a6 a7 a8 a9.
Definition set_target_system (v : Z) (sp : t) : t :=
  let '(mk a0 _ a2 a3 a4 a5 a6 a7 a8 a9) := sp in
  mk a0 v a2 a3 a4 a5 a6 a7 a8 a9.
Definition set_target_component (v : Z) (sp : t) : t :=
  let '(mk a0 a1 _ a3 a4 a5 a6 a7 a8 a9) := sp in
  mk a0 a1 v a3 a4 a5 a6 a7 a8 a9.
Definition set_type_mask (v : Z) (sp : t) : t :=
  let '(mk a0 a1 a2 _ a4 a5 a6 a7 a8 a9) := sp in
  mk a0 a1 a2 v a4 a5 a6 a7 a8 a9.
Definition set_q (v : list float32) (sp : t) : t :=
  let '(mk a0 a1 a2 a3 _ a5 a6 a7 a8 a9) := sp in
  mk a0 a1 a2 a3 v a5 a6 a7 a8 a9.
Definition set_body_roll_rate (v : float32) (sp : t) : t :=
  let '(mk a0 a1 a2 a3 a4 _ a6 a7 a8 a9) := sp in
  mk a0 a1 a2 a3 a4 v a6 a7 a8 a9.
Definition set_body_pitch_rate (v : float32) (sp : t) : t :=
  let '(mk a0 a1 a2 a3 a4 a5 _ a7 a8 a9) := sp in
  mk a0 a1 a2 a3 a4 a5 v a7 a8 a9.
Definition set_body_yaw_rate (v : float32) (sp : t) : t :=
  let '(mk a0 a1 a2 a3 a4 a5 a6 _ a8 a9) := sp in
  mk a0 a1 a2 a3 a4 a5 a6 v a8 a9.
Definition set_thrust (v : float32) (sp : t) : t :=
  let '(mk a0 a1 a2 a3 a4 a5 a6 a7 _ a9) := sp in
  mk a0 a1 a2 a3 a4 a5 a6 a7 v a9.

(** The fields by name, and a uniform view of their contents. *)
Inductive field :=
| f_time_boot_ms
| f_target_system
| f_target_component
| f_type_mask
| f_q
| f_body_roll_rate
| f_body_pitch_rate
| f_body_yaw_rate
| f_thrust
| f_thrust_body.

Definition get (f : field) (sp : t) : value :=
  match f with
  | f_time_boot_ms => VInt (time_boot_ms sp)
  | f_target_system => VInt (target_system sp)
  | f_target_component => VInt (target_component sp)
  | f_type_mask => VInt (type_mask sp)
  | f_q => VArray (q sp)
  | f_body_roll_rate => VFloat (body_roll_rate sp)
  | f_body_pitch_rate => VFloat (body_pitch_rate sp)
  | f_body_yaw_rate => VFloat (body_yaw_rate sp)
  | f_thrust => VFloat (thrust sp)
  | f_thrust_body => VArray (thrust_body sp)
  end.

End SET_ATTITUDE_TARGET.

(** ** The UAS, as far as the mixins use it *)

Module UAS.
Import St.

(** A message on its way out: the [mavlink::Message] base class of the three
    message structures. *)
Variant Message :=
| LocalNED (sp : SET_POSITION_TARGET_LOCAL_NED.t)
| GlobalInt (sp : SET_POSITION_TARGET_GLOBAL_INT.t)
| AttitudeTarget (sp : SET_ATTITUDE_TARGET.t).

(** The UAS object behind [uas_]: the ids of the target system and component
    and the messages handed to the link so far (oldest first). *)
Record t := mk {
  tgt_system : Z;
  tgt_component : Z;
  link : list Message
}.

(** Messages with the two addressing fields [msg_set_target] writes. *)
Class Targeted (M : Type) := {
  set_target_system : Z -> M -> M;
  set_target_component : Z -> M -> M
}.

#[global] Instance local_ned_targeted : Targeted SET_POSITION_TARGET_LOCAL_NED.t := {
  set_target_system := SET_POSITION_TARGET_LOCAL_NED.set_target_system;
  set_target_component := SET_POSITION_TARGET_LOCAL_NED.set_target_component
}.

#[global] Instance global_int_targeted : Targeted SET_POSITION_TARGET_GLOBAL_INT.t := {
  set_target_system := SET_POSITION_TARGET_GLOBAL_INT.set_target_system;
  set_target_component := SET_POSITION_TARGET_GLOBAL_INT.set_target_component
}.

#[global] Instance attitude_targeted : Targeted SET_ATTITUDE_TARGET.t := {
  set_target_system := SET_ATTITUDE_TARGET.set_target_system;
  set_target_component := SET_ATTITUDE_TARGET.set_target_component
}.

(** [UAS::msg_set_target(msg)].  The template is declared in mavros_uas.hpp,
    which is not part of the sources at hand; it is taken to do what its name
    says: address the message to the UAS's target, [msg.target_system] and
    [msg.target_component], and nothing else.  It returns the
    message it was given by reference. *)
Definition msg_set_target {M : Type} `{Targeted M} (msg : M) : State t M :=
  gets (fun uas =>
    set_target_component (tgt_component uas) (set_target_system (tgt_system uas) msg)).

(** Modelled from the spec: [UAS::send_message(msg)], declared in
    mavros_uas.hpp, which is not part of the sources at hand.  It is the send
    step of the spec: the "completed WireMessage [is] handed to a transport
    collaborator's send(WireMessage) call; no acknowledgement is awaited". *)
Definition send_message (msg : Message) : State t unit :=
  modify (fun uas => mk (tgt_system uas) (tgt_component uas) (link uas ++ [msg])).

End UAS.

(** ** Frame transformations *)

Module ftf.
Import Float.

(** Modelled from the spec: [mavros::ftf::quaternion_to_mavlink(q, qmsg)],
    declared in frame_tf.hpp, which is not part of the sources at hand.  It is
    the "external quaternion→wire conversion" that brings the orientation
    "from the quaternion representation to the protocol's 4-scalar ordering":
    the [float q[4]] field of the message holds w, x, y, z in this order.
    The spec does not give the width of the four scalars; the components are
    [double]s and the field holds [float]s, so each is converted as in the
    assignments of the function.  What is proved of [set_attitude_target_via]
    holds for every conversion. *)
Definition quaternion_to_mavlink (q : Quaterniond.t) : list float32 :=
  [ double_to_float (Quaterniond.w q); double_to_float (Quaterniond.x q);
    double_to_float (Quaterniond.y q); double_to_float (Quaterniond.z q) ].

(** Modelled from the spec: the decoding of the wire quaternion
    ([mavros::ftf::mavlink_to_quaternion], frame_tf.hpp), the inverse reading
    of the four scalars. *)
Definition mavlink_to_quaternion (qmsg : list float32) : Quaterniond.t :=
  Quaterniond.mk
    (float_to_double (nth 0 qmsg zero32)) (float_to_double (nth 1 qmsg zero32))
    (float_to_double (nth 2 qmsg zero32)) (float_to_double (nth 3 qmsg zero32)).

End ftf.

(** ** [setpoint_mixin.hpp] *)

Module Mixin.
Import St Float.

Module L := SET_POSITION_TARGET_LOCAL_NED.
Module G := SET_POSITION_TARGET_GLOBAL_INT.
Module A := SET_ATTITUDE_TARGET.

(** *** [SetPositionTargetLocalNEDMixin] *)

(** The generated block of assignments of [set_position_target_local_ned]. *)
Definition assign_local_ned
    (time_boot_ms coordinate_frame type_mask : Z) (p v af : Vector3d.t)
    (yaw yaw_rate : float32) (sp : L.t) : L.t :=
  let sp := L.set_time_boot_ms time_boot_ms sp in
  let sp := L.set_coordinate_frame coordinate_frame sp in
  let sp := L.set_type_mask type_mask sp in
  let sp := L.set_yaw yaw sp in
  let sp := L.set_yaw_rate yaw_rate sp in
  let sp := L.set_x (double_to_float (Vector3d.x p)) sp in
  let sp := L.set_y (double_to_float (Vector3d.y p)) sp in
  let sp := L.set_z (double_to_float (Vector3d.z p)) sp in
  let sp := L.set_vx (double_to_float (Vector3d.x v)) sp in
  let sp := L.set_vy (double_to_float (Vector3d.y v)) sp in
  let sp := L.set_vz (double_to_float (Vector3d.z v)) sp in
  let sp := L.set_afx (double_to_float (Vector3d.x af)) sp in
  let sp := L.set_afy (double_to_float (Vector3d.y af)) sp in
  let sp := L.set_afz (double_to_float (Vector3d.z af)) sp in
  sp.

(** The body of [set_position_target_local_ned], a [void] function acting on
    the UAS.  What the call [uas_->msg_set_target(sp)] does with the message
    and the UAS is left open here: the function is declared in
    mavros_uas.hpp, outside the sources at hand. *)
Definition set_position_target_local_ned_via
    (msg_set_target : L.t -> State UAS.t L.t)
    (time_boot_ms coordinate_frame type_mask : Z) (p v af : Vector3d.t)
    (yaw yaw_rate : float32) : State UAS.t unit :=
  let sp := L.zero in
  sp <- msg_set_target sp ;;
  let sp := assign_local_ned time_boot_ms coordinate_frame type_mask p v af yaw yaw_rate sp in
  UAS.send_message (UAS.LocalNED sp).

(** [set_position_target_local_ned], on a UAS whose [msg_set_target] fills in
    the target ids. *)
Definition set_position_target_local_ned
    (time_boot_ms coordinate_frame type_mask : Z) (p v af : Vector3d.t)
    (yaw yaw_rate : float32) : State UAS.t unit :=
  set_position_target_local_ned_via UAS.msg_set_target
    time_boot_ms coordinate_frame type_mask p v af yaw yaw_rate.

(** The fields on the left of an assignment of the function body. *)
Definition local_ned_assigned (f : L.field) : bool :=
  match f with
  | L.f_time_boot_ms | L.f_coordinate_frame | L.f_type_mask
  | L.f_yaw | L.f_yaw_rate
  | L.f_x | L.f_y | L.f_z | L.f_vx | L.f_vy | L.f_vz
  | L.f_afx | L.f_afy | L.f_afz => true
  | L.f_target_system | L.f_target_component => false
  end.

(** The value of [sp] when it reaches [send_message]. *)
Definition sp_local_ned_via
    (msg_set_target : L.t -> State UAS.t L.t) (uas : UAS.t)
    (time_boot_ms coordinate_frame type_mask : Z) (p v af : Vector3d.t)
    (yaw yaw_rate : float32) : L.t :=
  assign_local_ned time_boot_ms coordinate_frame type_mask p v af yaw yaw_rate
    (fst (msg_set_target L.zero uas)).

Definition sp_local_ned (uas : UAS.t)
    (time_boot_ms coordinate_frame type_mask : Z) (p v af : Vector3d.t)
    (yaw yaw_rate : float32) : L.t :=
  sp_local_ned_via UAS.msg_set_target uas
    time_boot_ms coordinate_frame type_mask p v af yaw yaw_rate.

(** *** [SetPositionTargetGlobalIntMixin] *)

(** The generated block of assignments of [set_position_target_global_int]. *)
Definition assign_global_int
    (time_boot_ms coordinate_frame type_mask lat_int lon_int : Z) (alt : float32)
    (v af : Vector3d.t) (yaw yaw_rate : float32) (sp : G.t) : G.t :=
  let sp := G.set_time_boot_ms time_boot_ms sp in
  let sp := G.set_coordinate_frame coordinate_frame sp in
  let sp := G.set_type_mask type_mask sp in
  let sp := G.set_lat_int lat_int sp in
  let sp := G.set_lon_int lon_int sp in
  let sp := G.set_alt alt sp in
  let sp := G.set_yaw yaw sp in
  let sp := G.set_yaw_rate yaw_rate sp in
  let sp := G.set_vx (double_to_float (Vector3d.x v)) sp in
  let sp := G.set_vy (double_to_float (Vector3d.y v)) sp in
  let sp := G.set_vz (double_to_float (Vector3d.z v)) sp in
  let sp := G.set_afx (double_to_float (Vector3d.x af)) sp in
  let sp := G.set_afy (double_to_float (Vector3d.y af)) sp in
  let sp := G.set_afz (double_to_float (Vector3d.z af)) sp in
  sp.

(** The body of [set_position_target_global_int], with [msg_set_target] left
    open in the same way. *)
Definition set_position_target_global_int_via
    (msg_set_target : G.t -> State UAS.t G.t)
    (time_boot_ms coordinate_frame type_mask lat_int lon_int : Z) (alt : float32)
    (v af : Vector3d.t) (yaw yaw_rate : float32) : State UAS.t unit :=
  let sp := G.zero in
  sp <- msg_set_target sp ;;
  let sp := assign_global_int time_boot_ms coordinate_frame type_mask lat_int lon_int alt
              v af yaw yaw_rate sp in
  UAS.send_message (UAS.GlobalInt sp).

(** [set_position_target_global_int]. *)
Definition set_position_target_global_int
    (time_boot_ms coordinate_frame type_mask lat_int lon_int : Z) (alt : float32)
    (v af : Vector3d.t) (yaw yaw_rate : float32) : State UAS.t unit :=
  set_position_target_global_int_via UAS.msg_set_target
    time_boot_ms coordinate_frame type_mask lat_int lon_int alt v af yaw yaw_rate.

Definition global_int_assigned (f : G.field) : bool :=
  match f with
  | G.f_time_boot_ms | G.f_coordinate_frame | G.f_type_mask
  | G.f_lat_int | G.f_lon_int | G.f_alt | G.f_yaw | G.f_yaw_rate
  | G.f_vx | G.f_vy | G.f_vz | G.f_afx | G.f_afy | G.f_afz => true
  | G.f_target_system | G.f_target_component => false
  end.

Definition sp_global_int_via
    (msg_set_target : G.t -> State UAS.t G.t) (uas : UAS.t)
    (time_boot_ms coordinate_frame type_mask lat_int lon_int : Z) (alt : float32)
    (v af : Vector3d.t) (yaw yaw_rate : float32) : G.t :=
  assign_global_int time_boot_ms coordinate_frame type_mask lat_int lon_int alt
    v af yaw yaw_rate (fst (msg_set_target G.zero uas)).

Definition sp_global_int (uas : UAS.t)
    (time_boot_ms coordinate_frame type_mask lat_int lon_int : Z) (alt : float32)
    (v af : Vector3d.t) (yaw yaw_rate : float32) : G.t :=
  sp_global_int_via UAS.msg_set_target uas
    time_boot_ms coordinate_frame type_mask lat_int lon_int alt v af yaw yaw_rate.

(** *** [SetAttitudeTargetMixin] *)

(** The generated block of assignments of [set_attitude_target]. *)
Definition assign_attitude
    (time_boot_ms type_mask : Z) (body_rate : Vector3d.t) (thrust : float32)
    (sp : A.t) : A.t :=
  let sp := A.set_time_boot_ms time_boot_ms sp in
  let sp := A.set_type_mask type_mask sp in
  let sp := A.set_thrust thrust sp in
  let sp := A.set_body_roll_rate (double_to_float (Vector3d.x body_rate)) sp in
  let sp := A.set_body_pitch_rate (double_to_float (Vector3d.y body_rate)) sp in
  let sp := A.set_body_yaw_rate (double_to_float (Vector3d.z body_rate)) sp in
  sp.

(** The body of [set_attitude_target], with [msg_set_target] and the
    conversion [ftf::quaternion_to_mavlink] left open: both are declared
    outside the sources at hand.  The conversion writes through its second
    argument, [sp.q], the [float q[4]] of the message. *)
Definition set_attitude_target_via
    (msg_set_target : A.t -> State UAS.t A.t)
    (quaternion_to_mavlink : Quaterniond.t -> list float32)
    (time_boot_ms type_mask : Z) (orientation : Quaterniond.t)
    (body_rate : Vector3d.t) (thrust : float32) : State UAS.t unit :=
  let sp := A.zero in
  sp <- msg_set_target sp ;;
  let sp := A.set_q (quaternion_to_mavlink orientation) sp in
  let sp := assign_attitude time_boot_ms type_mask body_rate thrust sp in
  UAS.send_message (UAS.AttitudeTarget sp).

(** [set_attitude_target]. *)
Definition set_attitude_target
    (time_boot_ms type_mask : Z) (orientation : Quaterniond.t)
    (body_rate : Vector3d.t) (thrust : float32) : State UAS.t unit :=
  set_attitude_target_via UAS.msg_set_target ftf.quaternion_to_mavlink
    time_boot_ms type_mask orientation body_rate thrust.

(** The fields written after [msg_set_target]: [q] and the assigned ones. *)
Definition attitude_assigned (f : A.field) : bool :=
  match f with
  | A.f_q | A.f_time_boot_ms | A.f_type_mask | A.f_thrust
  | A.f_body_roll_rate | A.f_body_pitch_rate | A.f_body_yaw_rate => true
  | A.f_target_system | A.f_target_component | A.f_thrust_body => false
  end.

Definition sp_attitude_via
    (msg_set_target : A.t -> State UAS.t A.t)
    (quaternion_to_mavlink : Quaterniond.t -> list float32) (uas : UAS.t)
    (time_boot_ms type_mask : Z) (orientation : Quaterniond.t)
    (body_rate : Vector3d.t) (thrust : float32) : A.t :=
  assign_attitude time_boot_ms type_mask body_rate thrust
    (A.set_q (quaternion_to_mavlink orientation)
       (fst (msg_set_target A.zero uas))).

Definition sp_attitude (uas : UAS.t)
    (time_boot_ms type_mask : Z) (orientation : Quaterniond.t)
    (body_rate : Vector3d.t) (thrust : float32) : A.t :=
  sp_attitude_via UAS.msg_set_target ftf.quaternion_to_mavlink uas
    time_boot_ms type_mask orientation body_rate thrust.

(** *** Calls in sequence *)

(** One call of one of the three functions, with its arguments, as a
    setpoint plugin makes it. *)
Variant call :=
| call_local_ned (time_boot_ms coordinate_frame type_mask : Z)
    (p v af : Vector3d.t) (yaw yaw_rate : float32)
| call_global_int (time_boot_ms coordinate_frame type_mask lat_int lon_int : Z)
    (alt : float32) (v af : Vector3d.t) (yaw yaw_rate : float32)
| call_attitude (time_boot_ms type_mask : Z) (orientation : Quaterniond.t)
    (body_rate : Vector3d.t) (thrust : float32).

Definition run_call (c : call) : State UAS.t unit :=
  match c with
  | call_local_ned time_boot_ms coordinate_frame type_mask p v af yaw yaw_rate =>
      set_position_target_local_ned time_boot_ms coordinate_frame type_mask
        p v af yaw yaw_rate
  | call_global_int time_boot_ms coordinate_frame type_mask lat_int lon_int alt
      v af yaw yaw_rate =>
      set_position_target_global_int time_boot_ms coordinate_frame type_mask
        lat_int lon_int alt v af yaw yaw_rate
  | call_attitude time_boot_ms type_mask orientation body_rate thrust =>
      set_attitude_target time_boot_ms type_mask orientation body_rate thrust
  end.

Fixpoint run_calls (calls : list call) : State UAS.t unit :=
  match calls with
  | [] => ret tt
  | c :: rest => run_call c ;; run_calls rest
  end.

(** The message a call puts together for a UAS with the given target. *)
Definition message_of (uas : UAS.t) (c : call) : UAS.Message :=
  match c with
  | call_local_ned time_boot_ms coordinate_frame type_mask p v af yaw yaw_rate =>
      UAS.LocalNED
        (sp_local_ned uas time_boot_ms coordinate_frame type_mask p v af yaw yaw_rate)
  | call_global_int time_boot_ms coordinate_frame type_mask lat_int lon_int alt
      v af yaw yaw_rate =>
      UAS.GlobalInt
        (sp_global_int uas time_boot_ms coordinate_frame type_mask lat_int lon_int
           alt v af yaw yaw_rate)
  | call_attitude time_boot_ms type_mask orientation body_rate thrust =>
      UAS.AttitudeTarget
        (sp_attitude uas time_boot_ms type_mask orientation body_rate thrust)
  end.

(** Two calls that cannot be told apart on the link: calls of the same
    function, for UASs with the same target, with the same integers and
    [float]s, vectors that agree as [float]s and orientations with the same
    four wire scalars. *)
Definition same_on_the_wire (uas : UAS.t) (c : call) (uas' : UAS.t) (c' : call) : Prop :=
  UAS.tgt_system uas = UAS.tgt_system uas' /\
  UAS.tgt_component uas = UAS.tgt_component uas' /\
  match c, c' with
  | call_local_ned t f m p v af yaw yaw_rate,
    call_local_ned t' f' m' p' v' af' yaw' yaw_rate' =>
      t = t' /\ f = f' /\ m = m' /\ yaw = yaw' /\ yaw_rate = yaw_rate' /\
      Vector3d.same_floats p p' /\ Vector3d.same_floats v v' /\
      Vector3d.same_floats af af'
  | call_global_int t f m lat lon alt v af yaw yaw_rate,
    call_global_int t' f' m' lat' lon' alt' v' af' yaw' yaw_rate' =>
      t = t' /\ f = f' /\ m = m' /\ lat = lat' /\ lon = lon' /\ alt = alt' /\
      yaw = yaw' /\ yaw_rate = yaw_rate' /\
      Vector3d.same_floats v v' /\ Vector3d.same_floats af af'
  | call_attitude t m o r thrust, call_attitude t' m' o' r' thrust' =>
      t = t' /\ m = m' /\ thrust = thrust' /\
      ftf.quaternion_to_mavlink o = ftf.quaternion_to_mavlink o' /\
      Vector3d.same_floats r r'
  | _, _ => False
  end.

End Mixin.

(** ** Counting what four [float]s can hold *)

Module Counting.
Import Float.

(** A number for every [float]: distinct well-formed [float]s get distinct
    numbers below 2^34. *)
Definition code32 (f : float32) : Z :=
  match f with
  | F32 (S754_zero s) => if s then 1 else 0
  | F32 (S754_infinity s) => if s then 3 else 2
  | F32 S754_nan => 4
  | F32 (S754_finite s m e) =>
      5 + (if s then 1 else 0) + 2 * (Z.pos m + 16777216 * (e + 149))
  end.

Definition codes32 : Z := 17179869184.

(** A number below [codes32 ^ 4] for every [float q[4]]. *)
Definition code4 (qmsg : list float32) : Z :=
  match qmsg with
  | [a; b; c; d] =>
      code32 a + codes32 * (code32 b + codes32 * (code32 c + codes32 * code32 d))
  | _ => 0
  end.

Definition codes4 : Z := codes32 * codes32 * codes32 * codes32.

(** What a [float q[4]] can hold: four well-formed [float]s. *)
Definition float4 (qmsg : list float32) : bool :=
  (length qmsg =? 4)%nat && forallb valid32 qmsg.

(** The [double] 1 + k / 2^52, for [0 <= k < 2^52]. *)
Definition dbl (k : Z) : float64 :=
  F64 (S754_finite false (Z.to_pos (4503599627370496 + k)) (-52)).

(** Quaternions with [double] components, one for every number below
    2^156. *)
Definition nth_quaternion (k : Z) : Quaterniond.t :=
  Quaterniond.mk
    (dbl (k mod 4503599627370496))
    (dbl ((k / 4503599627370496) mod 4503599627370496))
    (dbl (k / 4503599627370496 / 4503599627370496))
    one64.

Definition valid_quaternion (q : Quaterniond.t) : bool :=
  valid64 (Quaterniond.w q) && valid64 (Quaterniond.x q) &&
  valid64 (Quaterniond.y q) && valid64 (Quaterniond.z q).

End Counting.

(** ** Properties of the change of format *)

Section FloatFacts.
Import Float.

Lemma iter_pos_iter {A : Type} (f : A -> A) (n : positive) (a : A) :
  SpecFloat.iter_pos f n a = Pos.iter f a n.
Proof.
  revert a. induction n as [n IH|n IH|]; intros a; simpl.
  - rewrite !IH. now rewrite !Pos.iter_swap.
  - now rewrite !IH.
  - reflexivity.
Qed.

(** Appending [k] zero bits to a mantissa adds [k] to its length... *)
Lemma digits2_shift (m k : positive) :
  digits2_pos (Pos.iter xO m k) = (digits2_pos m + k)%positive.
Proof.
  induction k as [|k IH] using Pos.peano_ind.
  - simpl. lia.
  - rewrite Pos.iter_succ. simpl. rewrite IH. lia.
Qed.

(** ... and shifting them out again loses nothing. *)
Lemma shr_shift (m k : positive) :
  SpecFloat.iter_pos shr_1 k
    {| shr_m := Zpos (Pos.iter xO m k); shr_r := false; shr_s := false |} =
  {| shr_m := Zpos m; shr_r := false; shr_s := false |}.
Proof.
  rewrite iter_pos_iter.
  induction k as [|k IH] using Pos.peano_ind.
  - reflexivity.
  - rewrite (Pos.iter_succ k _ shr_1), <- Pos.iter_swap, (Pos.iter_succ k _ xO).
    simpl. exact IH.
Qed.

(** A finite binary32 number becomes the binary64 number with the same
    mantissa, padded to 53 bits. *)
Lemma widen_finite (s : bool) (m : positive) (e : Z) :
  valid_binary 24 128 (S754_finite s m e) = true ->
  exists k : positive,
    Zpos k = 53 - Zpos (digits2_pos m) /\
    convert 53 1024 (S754_finite s m e) = S754_finite s (Pos.iter xO m k) (e - Zpos k).
Proof.
  simpl. unfold bounded, canonical_mantissa, fexp, emin. intros H.
  apply andb_true_iff in H as [Hc He]. apply Z.eqb_eq in Hc. apply Z.leb_le in He.
  set (d := digits2_pos m) in *.
  assert (Hd : Zpos d <= 24) by lia.
  assert (Hk : exists k : positive, Zpos k = 53 - Zpos d).
  { exists (Z.to_pos (53 - Zpos d)). rewrite Z2Pos.id; lia. }
  destruct Hk as [k Hk]. exists k. split; [exact Hk|].
  unfold binary_round, shl_align, fexp, emin. fold d.
  replace (Z.max (Zpos d + e - 53) (3 - 1024 - 53) - e) with (Zneg k) by lia.
  replace (Z.max (Zpos d + e - 53) (3 - 1024 - 53)) with (e - Zpos k) by lia.
  unfold binary_round_aux, shr_fexp, fexp, emin. simpl Zdigits2.
  rewrite digits2_shift. fold d.
  replace (Z.max (Zpos (d + k) + (e - Zpos k) - 53) (3 - 1024 - 53) - (e - Zpos k))
    with 0 by lia.
  simpl. rewrite digits2_shift. fold d.
  replace (Z.max (Zpos (d + k) + (e - Zpos k) - 53) (3 - 1024 - 53) - (e - Zpos k))
    with 0 by lia.
  simpl.
  replace (e - Zpos k <=? 1024 - 53) with true by (symmetry; apply Z.leb_le; lia).
  reflexivity.
Qed.

(** Rounding the padded number to binary32 drops the padding. *)
Lemma narrow_widened (s : bool) (m k : positive) (e : Z) :
  valid_binary 24 128 (S754_finite s m e) = true ->
  Zpos k = 53 - Zpos (digits2_pos m) ->
  convert 24 128 (S754_finite s (Pos.iter xO m k) (e - Zpos k)) = S754_finite s m e.
Proof.
  simpl. unfold bounded, canonical_mantissa, fexp, emin. intros H Hk.
  apply andb_true_iff in H as [Hc He]. apply Z.eqb_eq in Hc. apply Z.leb_le in He.
  set (d := digits2_pos m) in *.
  unfold binary_round, shl_align, fexp, emin. rewrite digits2_shift. fold d.
  replace (Z.max (Zpos (d + k) + (e - Zpos k) - 24) (3 - 128 - 24) - (e - Zpos k))
    with (Zpos k) by lia.
  unfold binary_round_aux, shr_fexp, fexp, emin. simpl Zdigits2.
  rewrite digits2_shift. fold d.
  replace (Z.max (Zpos (d + k) + (e - Zpos k) - 24) (3 - 128 - 24) - (e - Zpos k))
    with (Zpos k) by lia.
  unfold shr. simpl shr_record_of_loc. rewrite shr_shift. simpl.
  fold d. replace (e - Zpos k + Zpos k) with e by lia.
  replace (Z.max (Zpos d + e - 24) (3 - 128 - 24) - e) with 0 by lia.
  simpl. replace (e <=? 128 - 24) with true by (symmetry; apply Z.leb_le; lia).
  reflexivity.
Qed.

(** The promotion of a [float] is a [double]... *)
Lemma float_to_double_valid (f : float32) :
  valid32 f = true -> valid64 (float_to_double f) = true.
Proof.
  destruct f as [[s|s| |s m e]]; try reflexivity.
  intros H. unfold float_to_double, valid64.
  destruct (widen_finite s m e H) as (k & Hk & ->).
  simpl in H. unfold bounded, canonical_mantissa, fexp, emin in H.
  apply andb_true_iff in H as [Hc He]. apply Z.eqb_eq in Hc. apply Z.leb_le in He.
  simpl. unfold bounded, canonical_mantissa, fexp, emin. rewrite digits2_shift.
  apply andb_true_iff. split; [apply Z.eqb_eq | apply Z.leb_le]; lia.
Qed.

(** ... that comes back as the [float] it was. *)
Lemma float_round_trip (f : float32) :
  valid32 f = true -> double_to_float (float_to_double f) = f.
Proof.
  destruct f as [[s|s| |s m e]]; try reflexivity.
  intros H. unfold float_to_double, double_to_float.
  destruct (widen_finite s m e H) as (k & Hk & ->).
  f_equal. now apply narrow_widened.
Qed.

(** The [double]s that hold a [float] value are representable. *)
Lemma float_representable (f : float32) :
  valid32 f = true -> representable_in_float (float_to_double f).
Proof.
  intros H. unfold representable_in_float. now rewrite float_round_trip.
Qed.

End FloatFacts.

(** ** Properties of the MagCalStatus plugin *)

Section MagCalFacts.
Import Fixed St MagCal.

Lemma land_single_bit (m i : Z) :
  0 <= i -> Z.land m (Z.shiftl 1 i) = if Z.testbit m i then 2 ^ i else 0.
Proof.
  intros Hi. rewrite Z.shiftl_1_l. apply Z.bits_inj'. intros n Hn.
  rewrite Z.land_spec, Z.pow2_bits_eqb by lia.
  destruct (Z.eqb_spec i n) as [->|Hne].
  - destruct (Z.testbit m n); simpl.
    + now rewrite Z.pow2_bits_true by lia.
    + now rewrite Z.bits_0.
  - rewrite andb_false_r. destruct (Z.testbit m i).
    + now rewrite Z.pow2_bits_false by lia.
    + now rewrite Z.bits_0.
Qed.

Lemma land_single_bit_eqb (m i : Z) :
  0 <= i -> (Z.land m (Z.shiftl 1 i) =? 0) = negb (Z.testbit m i).
Proof.
  intros Hi. rewrite land_single_bit by lia.
  destruct (Z.testbit m i); simpl; [|reflexivity].
  apply Z.eqb_neq. pose proof (Z.pow_pos_nonneg 2 i). lia.
Qed.

(** The loop counts the set bits among bits 0, 1 and 2 of the mask. *)
Lemma compassCalCount_bits (m : Z) :
  compassCalCount m = bit m 0 + bit m 1 + bit m 2.
Proof.
  unfold compassCalCount, bit. change (seqZ 0 3) with [0; 1; 2]. cbn [fold_left].
  rewrite !land_single_bit_eqb by lia.
  destruct (Z.testbit m 0), (Z.testbit m 1), (Z.testbit m 2); reflexivity.
Qed.

Lemma compassCalCount_range (m : Z) : 0 <= compassCalCount m <= 3.
Proof.
  rewrite compassCalCount_bits. unfold bit.
  destruct (Z.testbit m 0), (Z.testbit m 1), (Z.testbit m 2); lia.
Qed.

Lemma testbit_land7 (m i : Z) :
  Z.testbit (Z.land m 7) i = Z.testbit m i && Z.testbit 7 i.
Proof. apply Z.land_spec. Qed.

(** It is the population count of the mask cut down to its low three bits. *)
Lemma compassCalCount_popcount (m : Z) :
  compassCalCount m = popcount8 (Z.land m 7).
Proof.
  rewrite compassCalCount_bits. unfold popcount8, bit.
  change (seqZ 0 8) with [0; 1; 2; 3; 4; 5; 6; 7]. cbn [fold_left].
  rewrite !testbit_land7. simpl (Z.testbit 7 _). rewrite !andb_true_r, !andb_false_r.
  destruct (Z.testbit m 0), (Z.testbit m 1), (Z.testbit m 2); reflexivity.
Qed.

Lemma compassCalCount_zero (m : Z) :
  compassCalCount m = 0 <-> Z.land m 7 = 0.
Proof.
  rewrite compassCalCount_bits. unfold bit. split.
  - intros H. apply Z.bits_inj'. intros n Hn. rewrite testbit_land7, Z.bits_0.
    destruct (Z.testbit m 0) eqn:E0, (Z.testbit m 1) eqn:E1,
      (Z.testbit m 2) eqn:E2; try lia.
    destruct (Z.eq_dec n 0) as [->|]; [now rewrite E0|].
    destruct (Z.eq_dec n 1) as [->|]; [now rewrite E1|].
    destruct (Z.eq_dec n 2) as [->|]; [now rewrite E2|].
    replace (Z.testbit 7 n) with false; [apply andb_false_r|].
    symmetry. change 7 with (Z.ones 3). apply Z.ones_spec_high. lia.
  - intros H.
    assert (Hb : forall i, Z.testbit m i && Z.testbit 7 i = false)
      by (intros i; rewrite <- testbit_land7, H; apply Z.bits_0).
    pose proof (Hb 0) as H0. pose proof (Hb 1) as H1. pose proof (Hb 2) as H2.
    simpl (Z.testbit 7 _) in *. rewrite andb_true_r in *.
    now rewrite H0, H1, H2.
Qed.

(** On a mask that has no bit above bit 2 the loop is the population count. *)
Lemma compassCalCount_small_mask (m : Z) :
  0 <= m < 8 -> compassCalCount m = popcount8 m.
Proof.
  intros Hm. rewrite compassCalCount_popcount. f_equal.
  change 7 with (Z.ones 3). rewrite Z.land_ones by lia.
  apply Z.mod_small. simpl; lia.
Qed.

Lemma exec_handle_status (mp : MAG_CAL_PROGRESS) (p : MagCalStatusPlugin) :
  exec (handle_status mp) p =
  let p1 := {| _rgCompassCalProgress := updated_progress mp (_rgCompassCalProgress p);
               mcs_pub := mcs_pub p;
               mcr_pub := mcr_pub p |} in
  {| _rgCompassCalProgress := _rgCompassCalProgress p1;
     mcs_pub := mcs_pub p ++ [to_uint8 (progress_sum p1)];
     mcr_pub := mcr_pub p |}.
Proof.
  unfold handle_status, updated_progress, exec, bind, when.
  destruct ((compass_id mp <? 3) && negb (compassCalCount (cal_mask mp) =? 0));
    destruct p; reflexivity.
Qed.

Lemma progress_sum_exec_handle_status (mp : MAG_CAL_PROGRESS) (p : MagCalStatusPlugin) :
  progress_sum (exec (handle_status mp) p) =
  progress_sum {| _rgCompassCalProgress := updated_progress mp (_rgCompassCalProgress p);
                  mcs_pub := mcs_pub p; mcr_pub := mcr_pub p |}.
Proof. rewrite exec_handle_status. reflexivity. Qed.

Lemma to_uint8_range (z : Z) : is_uint8 (to_uint8 z).
Proof. unfold is_uint8, to_uint8. apply Z.mod_pos_bound. lia. Qed.

Lemma to_uint8_small (z : Z) : is_uint8 z -> to_uint8 z = z.
Proof. unfold is_uint8, to_uint8. intros H. now apply Z.mod_small. Qed.

Lemma quot_uint8 (a n : Z) : is_uint8 a -> 1 <= n -> is_uint8 (a ÷ n).
Proof.
  unfold is_uint8. intros Ha Hn. rewrite Z.quot_div_nonneg by lia. split.
  - apply Z.div_pos; lia.
  - apply Z.le_lt_trans with a; [|lia]. apply Z.div_le_upper_bound; nia.
Qed.

Lemma updated_progress_length (mp : MAG_CAL_PROGRESS) (l : list Z) :
  length (updated_progress mp l) = length l.
Proof.
  unfold updated_progress.
  destruct (_ && _); [apply length_insert | reflexivity].
Qed.

Lemma updated_progress_uint8 (mp : MAG_CAL_PROGRESS) (l : list Z) :
  Forall is_uint8 l -> Forall is_uint8 (updated_progress mp l).
Proof.
  intros Hl. unfold updated_progress. destruct (_ && _); [|assumption].
  apply Forall_insert; [assumption | apply to_uint8_range].
Qed.

(** Both handlers keep the array well formed. *)
Lemma handle_status_wf (mp : MAG_CAL_PROGRESS) (p : MagCalStatusPlugin) :
  wf_plugin p -> wf_plugin (exec (handle_status mp) p).
Proof.
  intros [Hlen Hall]. rewrite exec_handle_status. split; simpl.
  - now rewrite updated_progress_length.
  - now apply updated_progress_uint8.
Qed.

Lemma handle_report_wf (mr : MAG_CAL_REPORT) (p : MagCalStatusPlugin) :
  wf_plugin p -> wf_plugin (exec (handle_report mr) p).
Proof. intros H. exact H. Qed.

Lemma reachable_wf (p : MagCalStatusPlugin) : reachable p -> wf_plugin p.
Proof.
  induction 1 as [|p mp _ IH _|p mr _ IH _].
  - split; [reflexivity|]. repeat constructor; unfold is_uint8; lia.
  - now apply handle_status_wf.
  - now apply handle_report_wf.
Qed.

End MagCalFacts.

(** ** The handlers of the MagCalStatus plugin *)

Section MagCalHandlers.
Import Fixed St MagCal.

Lemma accepted_store (mp : MAG_CAL_PROGRESS) (l : list Z) :
  wf_progress mp -> compass_id mp < 3 -> Z.land (cal_mask mp) 7 <> 0 ->
  updated_progress mp l =
  <[Z.to_nat (compass_id mp) :=
      completion_pct mp ÷ popcount8 (Z.land (cal_mask mp) 7)]> l.
Proof.
  intros (Hid & Hmask & Hpct) Hlt Hbits. unfold updated_progress.
  assert (Hn : 1 <= compassCalCount (cal_mask mp)).
  { pose proof (compassCalCount_range (cal_mask mp)) as Hr.
    pose proof (compassCalCount_zero (cal_mask mp)) as Hz.
    destruct (Z.eq_dec (compassCalCount (cal_mask mp)) 0) as [E|E]; [|lia].
    apply Hz in E. contradiction. }
  replace (compass_id mp <? 3) with true by (symmetry; apply Z.ltb_lt; lia).
  replace (compassCalCount (cal_mask mp) =? 0) with false
    by (symmetry; apply Z.eqb_neq; lia).
  simpl. rewrite to_uint8_small by (apply quot_uint8; assumption).
  now rewrite compassCalCount_popcount.
Qed.

Lemma ignored_store (mp : MAG_CAL_PROGRESS) (l : list Z) :
  3 <= compass_id mp \/ Z.land (cal_mask mp) 7 = 0 ->
  updated_progress mp l = l.
Proof.
  intros H. unfold updated_progress. destruct H as [H|H].
  - replace (compass_id mp <? 3) with false by (symmetry; apply Z.ltb_ge; lia).
    reflexivity.
  - apply compassCalCount_zero in H. rewrite H. simpl. now rewrite andb_false_r.
Qed.

(** C2, amended.  A progress report with [compass_id < 3] and a bit set among
    the low three bits of [cal_mask] stores [completion_pct] divided
    (truncating) by the number of bits set among the low three bits of
    [cal_mask] into the cell of that compass, leaves the other two cells as
    they are and publishes the sum of the three cells reduced modulo 256 on
    the progress publisher; the report publisher is not used.  For a mask
    below 8 the divisor is the population count of the mask, and a sum of at
    most 255 is published as it is.  The scenario of the specification runs
    as written. *)
Theorem handle_status_accepted (p : MagCalStatusPlugin) (mp : MAG_CAL_PROGRESS) :
  wf_plugin p -> wf_progress mp ->
  compass_id mp < 3 -> Z.land (cal_mask mp) 7 <> 0 ->
  let p' := exec (handle_status mp) p in
  let n := popcount8 (Z.land (cal_mask mp) 7) in
  _rgCompassCalProgress p' !! Z.to_nat (compass_id mp) = Some (completion_pct mp ÷ n) /\
  (forall j : nat, j <> Z.to_nat (compass_id mp) ->
     _rgCompassCalProgress p' !! j = _rgCompassCalProgress p !! j) /\
  mcs_pub p' = mcs_pub p ++ [progress_sum p' mod 256] /\
  mcr_pub p' = mcr_pub p /\
  (cal_mask mp < 8 -> n = popcount8 (cal_mask mp)) /\
  (progress_sum p' <= 255 -> mcs_pub p' = mcs_pub p ++ [progress_sum p']) /\
  exec (handle_status report_a) initial =
    {| _rgCompassCalProgress := [25; 0; 0]; mcs_pub := [25]; mcr_pub := [] |} /\
  exec (handle_status report_b) (exec (handle_status report_a) initial) =
    {| _rgCompassCalProgress := [25; 50; 0]; mcs_pub := [25; 75]; mcr_pub := [] |}.
Proof.
  intros Hp Hmp Hlt Hbits p' n. subst p' n.
  pose proof (accepted_store mp (_rgCompassCalProgress p) Hmp Hlt Hbits) as Hst.
  assert (Hwf' : wf_plugin (exec (handle_status mp) p)) by now apply handle_status_wf.
  destruct Hp as [Hlen _]. destruct Hmp as ((Hid0 & _) & (Hm0 & _) & _).
  assert (Hsum : 0 <= progress_sum (exec (handle_status mp) p)).
  { destruct Hwf' as [Hlen' Hall']. unfold progress_sum.
    destruct (_rgCompassCalProgress (exec (handle_status mp) p))
      as [|a [|b [|c [|? ?]]]]; try discriminate Hlen'.
    inversion Hall' as [|? ? Ha Hall1]; subst.
    inversion Hall1 as [|? ? Hb Hall2]; subst.
    inversion Hall2 as [|? ? Hc _]; subst.
    unfold is_uint8 in *. simpl. lia. }
  revert Hsum.
  rewrite progress_sum_exec_handle_status, exec_handle_status.
  cbn [_rgCompassCalProgress mcs_pub mcr_pub]. rewrite Hst. intros Hsum.
  split; [apply list_lookup_insert_eq; lia|].
  split; [intros j Hj; apply list_lookup_insert_ne; congruence|].
  split; [reflexivity|]. split; [reflexivity|].
  split; [|split; [|split; reflexivity]].
  - intros Hsmall. rewrite <- !compassCalCount_popcount.
    apply compassCalCount_small_mask. lia.
  - intros Hle. unfold to_uint8. now rewrite Z.mod_small by lia.
Qed.

(** C3, amended.  A progress report with [compass_id >= 3] or without a bit
    among the low three bits of [cal_mask] (so also one with [cal_mask = 0])
    changes no cell of the array and leaves the report publisher alone, and
    the handler still publishes: the sum of the unchanged cells, modulo 256,
    goes out once more on the progress publisher. *)
Theorem handle_status_ignored (p : MagCalStatusPlugin) (mp : MAG_CAL_PROGRESS) :
  3 <= compass_id mp \/ Z.land (cal_mask mp) 7 = 0 ->
  let p' := exec (handle_status mp) p in
  _rgCompassCalProgress p' = _rgCompassCalProgress p /\
  mcs_pub p' = mcs_pub p ++ [progress_sum p mod 256] /\
  mcr_pub p' = mcr_pub p.
Proof.
  intros H p'. subst p'. rewrite exec_handle_status.
  cbn [_rgCompassCalProgress mcs_pub mcr_pub].
  rewrite (ignored_store mp _ H). repeat split.
Qed.

(** C9.  A final report publishes its [cal_status] as it is on the report
    publisher and touches neither the array nor the progress publisher; after
    the scenario of the specification, a report with status 4 publishes 4
    and the array still holds 25, 50, 0. *)
Theorem handle_report_publishes (p : MagCalStatusPlugin) (mr : MAG_CAL_REPORT) :
  let p' := exec (handle_report mr) p in
  mcr_pub p' = mcr_pub p ++ [cal_status mr] /\
  _rgCompassCalProgress p' = _rgCompassCalProgress p /\
  mcs_pub p' = mcs_pub p /\
  exec (handle_report {| cal_status := 4 |})
       (exec (handle_status report_b) (exec (handle_status report_a) initial)) =
    {| _rgCompassCalProgress := [25; 50; 0]; mcs_pub := [25; 75]; mcr_pub := [4] |}.
Proof. repeat split. Qed.

(** C10.  Whatever the state and the report, the value [handle_status]
    publishes is the sum of the three cells, as they are after the report,
    reduced modulo 256: it is a byte, and a sum above 255 wraps around (three
    compasses calibrated one after the other, each reported at 100, publish
    100, 200 and then 44). *)
Theorem published_aggregate_wraps (p : MagCalStatusPlugin) (mp : MAG_CAL_PROGRESS) :
  let p' := exec (handle_status mp) p in
  mcs_pub p' = mcs_pub p ++ [progress_sum p' mod 256] /\
  is_uint8 (progress_sum p' mod 256) /\
  let q := exec (handle_status (report_done 0) ;; handle_status (report_done 1) ;;
                 handle_status (report_done 2)) initial in
  reachable q /\ progress_sum q = 300 /\ mcs_pub q = [100; 200; 44].
Proof.
  intros p'. subst p'. split; [|split].
  - rewrite progress_sum_exec_handle_status, exec_handle_status. reflexivity.
  - apply to_uint8_range.
  - intros q. subst q. repeat split.
    change (reachable (exec (handle_status (report_done 2))
              (exec (handle_status (report_done 1))
                 (exec (handle_status (report_done 0)) initial)))).
    repeat (apply reach_status; [|compute; repeat split; discriminate]).
    apply reach_initial.
Qed.


(** C2, the instance of the first report of the scenario. *)
Lemma handle_status_accepted_witness :
  wf_plugin initial /\ wf_progress report_a /\
  compass_id report_a < 3 /\ Z.land (cal_mask report_a) 7 <> 0 /\
  _rgCompassCalProgress (exec (handle_status report_a) initial) !! 0%nat = Some 25.
Proof.
  assert (Hp : wf_plugin initial) by (apply reachable_wf, reach_initial).
  assert (Hmp : wf_progress report_a) by (compute; repeat split; discriminate).
  assert (Hlt : compass_id report_a < 3) by reflexivity.
  assert (Hb : Z.land (cal_mask report_a) 7 <> 0) by discriminate.
  split; [exact Hp|]. split; [exact Hmp|]. split; [exact Hlt|]. split; [exact Hb|].
  exact (proj1 (handle_status_accepted initial report_a Hp Hmp Hlt Hb)).
Defined.

(** C2 as it is written fails twice.  With compasses 0 and 1 at 100 each, a
    report that brings compass 2 to 100 makes the cells sum to 300 and 44 is
    published, not the sum; and under the mask 0b1001 the progress of
    compass 0 is divided by 1, the bits among the low three, where the
    population count of the mask is 2. *)
Lemma handle_status_accepted_counterexample :
  let p := exec (handle_status (report_done 0) ;; handle_status (report_done 1)) initial in
  let mp := report_done 2 in
  let p' := exec (handle_status mp) p in
  (wf_plugin p /\ wf_progress mp /\ compass_id mp < 3 /\ Z.land (cal_mask mp) 7 <> 0) /\
  (progress_sum p' = 300 /\ mcs_pub p' = mcs_pub p ++ [44]) /\
  mcs_pub p' <> mcs_pub p ++ [progress_sum p'] /\
  let mq := {| compass_id := 0; cal_mask := 9; completion_pct := 50 |} in
  let q' := exec (handle_status mq) initial in
  (wf_plugin initial /\ wf_progress mq /\ compass_id mq < 3 /\ Z.land (cal_mask mq) 7 <> 0) /\
  (_rgCompassCalProgress q' !! 0%nat = Some 50 /\ completion_pct mq ÷ popcount8 (cal_mask mq) = 25) /\
  _rgCompassCalProgress q' !! 0%nat <> Some (completion_pct mq ÷ popcount8 (cal_mask mq)).
Proof.
  assert (Hi : wf_plugin initial) by (apply reachable_wf, reach_initial).
  assert (Hp : wf_plugin (exec (handle_status (report_done 1))
                            (exec (handle_status (report_done 0)) initial)))
    by (do 2 apply handle_status_wf; exact Hi).
  intros p mp p'. split; [split; [exact Hp|]|split; [|split; [|split; [split; [exact Hi|]|]]]];
    repeat split; try discriminate; compute; discriminate.
Qed.

(** C3, the instance of a report for compass 5 in the initial state. *)
Lemma handle_status_ignored_witness :
  let mp := {| compass_id := 5; cal_mask := 3; completion_pct := 50 |} in
  (3 <= compass_id mp \/ Z.land (cal_mask mp) 7 = 0) /\
  _rgCompassCalProgress (exec (handle_status mp) initial) = [0; 0; 0] /\
  mcs_pub (exec (handle_status mp) initial) = [0].
Proof.
  intros mp.
  assert (H : 3 <= compass_id mp \/ Z.land (cal_mask mp) 7 = 0) by (left; discriminate).
  split; [exact H|].
  destruct (handle_status_ignored initial mp H) as (Ha & Hs & _).
  split; [exact Ha | exact Hs].
Defined.

(** C3 as it is written fails: a report for compass 5, the first the plugin
    receives, changes no cell and yet a message with the value 0 appears on
    the progress publisher, which had published nothing. *)
Lemma handle_status_ignored_counterexample :
  let mp := {| compass_id := 5; cal_mask := 3; completion_pct := 50 |} in
  let p' := exec (handle_status mp) initial in
  (wf_progress mp /\ 3 <= compass_id mp) /\
  _rgCompassCalProgress p' = _rgCompassCalProgress initial /\
  mcs_pub initial = [] /\ mcs_pub p' = [0] /\
  mcs_pub p' <> mcs_pub initial.
Proof.
  intros mp p'. repeat split; try discriminate; compute; discriminate.
Qed.

End MagCalHandlers.

(** ** The setpoint mixins *)

Section MixinFacts.
Import St Float Mixin.

(** What a call does to the UAS: the message built in [sp] joins the link. *)
Lemma exec_set_position_target_local_ned
    (uas : UAS.t) (time_boot_ms coordinate_frame type_mask : Z)
    (p v af : Vector3d.t) (yaw yaw_rate : float32) :
  exec (set_position_target_local_ned time_boot_ms coordinate_frame type_mask
          p v af yaw yaw_rate) uas =
  UAS.mk (UAS.tgt_system uas) (UAS.tgt_component uas)
    (UAS.link uas ++
     [UAS.LocalNED (sp_local_ned uas time_boot_ms coordinate_frame type_mask
                      p v af yaw yaw_rate)]).
Proof. reflexivity. Qed.

Lemma exec_set_position_target_global_int
    (uas : UAS.t) (time_boot_ms coordinate_frame type_mask lat_int lon_int : Z)
    (alt : float32) (v af : Vector3d.t) (yaw yaw_rate : float32) :
  exec (set_position_target_global_int time_boot_ms coordinate_frame type_mask
          lat_int lon_int alt v af yaw yaw_rate) uas =
  UAS.mk (UAS.tgt_system uas) (UAS.tgt_component uas)
    (UAS.link uas ++
     [UAS.GlobalInt (sp_global_int uas time_boot_ms coordinate_frame type_mask
                       lat_int lon_int alt v af yaw yaw_rate)]).
Proof. reflexivity. Qed.

Lemma exec_set_attitude_target
    (uas : UAS.t) (time_boot_ms type_mask : Z) (orientation : Quaterniond.t)
    (body_rate : Vector3d.t) (thrust : float32) :
  exec (set_attitude_target time_boot_ms type_mask orientation body_rate thrust) uas =
  UAS.mk (UAS.tgt_system uas) (UAS.tgt_component uas)
    (UAS.link uas ++
     [UAS.AttitudeTarget (sp_attitude uas time_boot_ms type_mask orientation
                            body_rate thrust)]).
Proof. reflexivity. Qed.

Lemma through_float_fixed (v : Vector3d.t) :
  Vector3d.through_float v = v <-> Vector3d.representable v.
Proof.
  destruct v as [a b c].
  unfold Vector3d.through_float, Vector3d.of_floats, Vector3d.representable,
    representable_in_float. simpl. split.
  - intros H. injection H as Ha Hb Hc. auto.
  - intros (Ha & Hb & Hc). now rewrite Ha, Hb, Hc.
Qed.

(** C1, amended.  The message [set_position_target_local_ned] sends carries
    the five scalar arguments as they are and the components of the three
    vectors in their places, axis 0, 1, 2 of the position in [x], [y], [z],
    of the velocity in [vx], [vy], [vz], of the acceleration in [afx],
    [afy], [afz], each converted from [double] to the [float] of the field.
    Reading the nine fields back gives the three vectors with every component
    rounded to single precision: the original vector exactly when its
    components are representable as [float]s, and only then.  A vector that
    holds [float] values is representable: its components reach the message
    unchanged. *)
Theorem local_ned_fields
    (uas : UAS.t) (time_boot_ms coordinate_frame type_mask : Z)
    (p v af : Vector3d.t) (yaw yaw_rate : float32) :
  let sp := sp_local_ned uas time_boot_ms coordinate_frame type_mask p v af yaw yaw_rate in
  UAS.link (exec (set_position_target_local_ned time_boot_ms coordinate_frame
                    type_mask p v af yaw yaw_rate) uas) =
    UAS.link uas ++ [UAS.LocalNED sp] /\
  (L.time_boot_ms sp = time_boot_ms /\ L.coordinate_frame sp = coordinate_frame /\
   L.type_mask sp = type_mask /\ L.yaw sp = yaw /\ L.yaw_rate sp = yaw_rate) /\
  (L.x sp = double_to_float (Vector3d.x p) /\
   L.y sp = double_to_float (Vector3d.y p) /\
   L.z sp = double_to_float (Vector3d.z p)) /\
  (L.vx sp = double_to_float (Vector3d.x v) /\
   L.vy sp = double_to_float (Vector3d.y v) /\
   L.vz sp = double_to_float (Vector3d.z v)) /\
  (L.afx sp = double_to_float (Vector3d.x af) /\
   L.afy sp = double_to_float (Vector3d.y af) /\
   L.afz sp = double_to_float (Vector3d.z af)) /\
  (Vector3d.of_floats (L.x sp) (L.y sp) (L.z sp) = Vector3d.through_float p /\
   Vector3d.of_floats (L.vx sp) (L.vy sp) (L.vz sp) = Vector3d.through_float v /\
   Vector3d.of_floats (L.afx sp) (L.afy sp) (L.afz sp) = Vector3d.through_float af) /\
  (Vector3d.of_floats (L.x sp) (L.y sp) (L.z sp) = p <-> Vector3d.representable p) /\
  (Vector3d.of_floats (L.vx sp) (L.vy sp) (L.vz sp) = v <-> Vector3d.representable v) /\
  (Vector3d.of_floats (L.afx sp) (L.afy sp) (L.afz sp) = af <-> Vector3d.representable af) /\
  (forall fx fy fz : float32,
     valid32 fx = true -> valid32 fy = true -> valid32 fz = true ->
     p = Vector3d.of_floats fx fy fz ->
     L.x sp = fx /\ L.y sp = fy /\ L.z sp = fz /\
     Vector3d.of_floats (L.x sp) (L.y sp) (L.z sp) = p).
Proof.
  intros sp. subst sp.
  split; [reflexivity|]. split; [repeat split|]. split; [repeat split|].
  split; [repeat split|]. split; [repeat split|]. split; [repeat split|].
  split; [apply through_float_fixed|]. split; [apply through_float_fixed|].
  split; [apply through_float_fixed|].
  intros fx fy fz Hx Hy Hz ->.
  change (double_to_float (float_to_double fx) = fx /\
          double_to_float (float_to_double fy) = fy /\
          double_to_float (float_to_double fz) = fz /\
          Vector3d.through_float (Vector3d.of_floats fx fy fz) =
            Vector3d.of_floats fx fy fz).
  rewrite through_float_fixed. unfold Vector3d.representable. simpl.
  repeat split; auto using float_round_trip, float_representable.
Qed.

(** C1, an instance: the position (0.5, 0, 1) is read back as it was sent. *)
Lemma local_ned_fields_witness :
  let p := Vector3d.mk half64 zero64 one64 in
  let sp := sp_local_ned (UAS.mk 1 1 []) 0 1 0 p p p zero32 zero32 in
  (Vector3d.representable p /\
   Vector3d.of_floats (L.x sp) (L.y sp) (L.z sp) = p) /\
  ((valid32 half32 = true /\ valid32 zero32 = true /\ valid32 one32 = true /\
    p = Vector3d.of_floats half32 zero32 one32) /\
   L.x sp = half32 /\ L.y sp = zero32 /\ L.z sp = one32).
Proof.
  intros p sp.
  assert (Hp : Vector3d.representable p) by (repeat split).
  pose proof (local_ned_fields (UAS.mk 1 1 []) 0 1 0 p p p zero32 zero32) as H.
  simpl in H. destruct H as (_ & _ & _ & _ & _ & _ & H & _ & _ & Hf).
  split.
  - split; [exact Hp|]. apply H. exact Hp.
  - split; [repeat split|].
    destruct (Hf half32 zero32 one32 eq_refl eq_refl eq_refl eq_refl)
      as (Hx & Hy & Hz & _).
    split; [exact Hx|]. split; [exact Hy | exact Hz].
Defined.

(** C1 as it is written fails: the position (0.1, 0, 0), whose first
    component is the [double] nearest to 0.1, is sent as the [float] nearest
    to 0.1, and reading [x] back gives 0.100000001490116..., not the
    component that was passed. *)
Lemma local_ned_fields_counterexample :
  let p := Vector3d.mk tenth64 zero64 zero64 in
  let o := Vector3d.mk zero64 zero64 zero64 in
  let uas := UAS.mk 1 1 [] in
  let sp := sp_local_ned uas 0 1 0 p o o zero32 zero32 in
  (valid64 (Vector3d.x p) = true /\ valid64 (Vector3d.y p) = true /\
   valid64 (Vector3d.z p) = true) /\
  UAS.link (exec (set_position_target_local_ned 0 1 0 p o o zero32 zero32) uas) =
    [UAS.LocalNED sp] /\
  L.x sp = F32 (S754_finite false 13421773 (-27)) /\
  float_to_double (L.x sp) = F64 (S754_finite false 7205759511166976 (-56)) /\
  float_to_double (L.x sp) <> Vector3d.x p /\
  eqb64 (float_to_double (L.x sp)) (Vector3d.x p) = false /\
  Vector3d.of_floats (L.x sp) (L.y sp) (L.z sp) <> p.
Proof.
  intros p o uas sp. repeat split; vm_compute; discriminate.
Qed.

(** C4, amended.  Each of the three mixin functions performs the send step
    itself: its last statement hands the message it has just filled to
    [send_message] of the UAS, once, and the function returns nothing; the
    link holds the message when the function returns, without any further
    call of the caller. *)
Theorem mixins_send_themselves
    (uas : UAS.t) (time_boot_ms coordinate_frame type_mask lat_int lon_int : Z)
    (alt yaw yaw_rate thrust : float32) (p v af body_rate : Vector3d.t)
    (orientation : Quaterniond.t) :
  UAS.link (exec (set_position_target_local_ned time_boot_ms coordinate_frame
                    type_mask p v af yaw yaw_rate) uas) =
    UAS.link uas ++
    [UAS.LocalNED (sp_local_ned uas time_boot_ms coordinate_frame type_mask
                     p v af yaw yaw_rate)] /\
  UAS.link (exec (set_position_target_global_int time_boot_ms coordinate_frame
                    type_mask lat_int lon_int alt v af yaw yaw_rate) uas) =
    UAS.link uas ++
    [UAS.GlobalInt (sp_global_int uas time_boot_ms coordinate_frame type_mask
                      lat_int lon_int alt v af yaw yaw_rate)] /\
  UAS.link (exec (set_attitude_target time_boot_ms type_mask orientation
                    body_rate thrust) uas) =
    UAS.link uas ++
    [UAS.AttitudeTarget (sp_attitude uas time_boot_ms type_mask orientation
                           body_rate thrust)].
Proof. repeat split. Qed.

(** C4 as it is written fails: on a UAS whose link has carried nothing, one
    call of any of the three functions, with nothing done after it returns,
    leaves one message on the link. *)
Lemma mixins_send_themselves_counterexample :
  let uas := UAS.mk 1 1 [] in
  let o := Vector3d.mk zero64 zero64 zero64 in
  let q := Quaterniond.mk one64 zero64 zero64 zero64 in
  UAS.link uas = [] /\
  UAS.link (exec (set_position_target_local_ned 0 1 0 o o o zero32 zero32) uas) =
    [UAS.LocalNED (sp_local_ned uas 0 1 0 o o o zero32 zero32)] /\
  UAS.link (exec (set_position_target_global_int 0 5 0 0 0 zero32 o o zero32 zero32) uas) =
    [UAS.GlobalInt (sp_global_int uas 0 5 0 0 0 zero32 o o zero32 zero32)] /\
  UAS.link (exec (set_attitude_target 0 0 q o zero32) uas) =
    [UAS.AttitudeTarget (sp_attitude uas 0 0 q o zero32)] /\
  UAS.link (exec (set_position_target_local_ned 0 1 0 o o o zero32 zero32) uas) <>
    UAS.link uas /\
  UAS.link (exec (set_position_target_global_int 0 5 0 0 0 zero32 o o zero32 zero32) uas) <>
    UAS.link uas /\
  UAS.link (exec (set_attitude_target 0 0 q o zero32) uas) <> UAS.link uas.
Proof.
  intros uas o q. repeat split; discriminate.
Qed.

(** C6.  The message [set_attitude_target] sends carries axis 0 of
    [body_rate] in [body_roll_rate], axis 1 in [body_pitch_rate] and axis 2
    in [body_yaw_rate], each converted to the [float] of its field and mixed
    with no other axis, and [time_boot_ms], [type_mask] and [thrust] as they
    were passed. *)
Theorem attitude_fields
    (uas : UAS.t) (time_boot_ms type_mask : Z) (orientation : Quaterniond.t)
    (body_rate : Vector3d.t) (thrust : float32) :
  let sp := sp_attitude uas time_boot_ms type_mask orientation body_rate thrust in
  UAS.link (exec (set_attitude_target time_boot_ms type_mask orientation
                    body_rate thrust) uas) =
    UAS.link uas ++ [UAS.AttitudeTarget sp] /\
  A.body_roll_rate sp = double_to_float (Vector3d.x body_rate) /\
  A.body_pitch_rate sp = double_to_float (Vector3d.y body_rate) /\
  A.body_yaw_rate sp = double_to_float (Vector3d.z body_rate) /\
  A.time_boot_ms sp = time_boot_ms /\
  A.type_mask sp = type_mask /\
  A.thrust sp = thrust.
Proof. repeat split. Qed.

(** C7.  The message [set_position_target_global_int] sends carries
    [lat_int] and [lon_int] as the integers that were passed, [alt], [yaw]
    and [yaw_rate] as they were passed, and the velocity and the acceleration
    in [vx], [vy], [vz] and [afx], [afy], [afz], the very fields
    [set_position_target_local_ned] sends for the same two vectors. *)
Theorem global_int_fields
    (uas : UAS.t) (time_boot_ms coordinate_frame type_mask lat_int lon_int : Z)
    (alt : float32) (v af : Vector3d.t) (yaw yaw_rate : float32) :
  let sp := sp_global_int uas time_boot_ms coordinate_frame type_mask
              lat_int lon_int alt v af yaw yaw_rate in
  UAS.link (exec (set_position_target_global_int time_boot_ms coordinate_frame
                    type_mask lat_int lon_int alt v af yaw yaw_rate) uas) =
    UAS.link uas ++ [UAS.GlobalInt sp] /\
  (G.lat_int sp = lat_int /\ G.lon_int sp = lon_int) /\
  (G.alt sp = alt /\ G.yaw sp = yaw /\ G.yaw_rate sp = yaw_rate) /\
  (G.vx sp = double_to_float (Vector3d.x v) /\
   G.vy sp = double_to_float (Vector3d.y v) /\
   G.vz sp = double_to_float (Vector3d.z v)) /\
  (G.afx sp = double_to_float (Vector3d.x af) /\
   G.afy sp = double_to_float (Vector3d.y af) /\
   G.afz sp = double_to_float (Vector3d.z af)) /\
  (forall (uas' : UAS.t) (time_boot_ms' coordinate_frame' type_mask' : Z)
          (p' : Vector3d.t) (yaw' yaw_rate' : float32),
     let sl := sp_local_ned uas' time_boot_ms' coordinate_frame' type_mask'
                 p' v af yaw' yaw_rate' in
     G.vx sp = L.vx sl /\ G.vy sp = L.vy sl /\ G.vz sp = L.vz sl /\
     G.afx sp = L.afx sl /\ G.afy sp = L.afy sl /\ G.afz sp = L.afz sl).
Proof. repeat split. Qed.

Lemma quaternion_wire_trip (q : Quaterniond.t) :
  ftf.mavlink_to_quaternion (ftf.quaternion_to_mavlink q) = Quaterniond.through_float q.
Proof. reflexivity. Qed.

Lemma quaternion_through_float_fixed (q : Quaterniond.t) :
  Quaterniond.through_float q = q <-> Quaterniond.representable q.
Proof.
  destruct q as [a b c d].
  unfold Quaterniond.through_float, Quaterniond.representable, representable_in_float.
  simpl. split.
  - intros H. injection H as Ha Hb Hc Hd. auto.
  - intros (Ha & Hb & Hc & Hd). now rewrite Ha, Hb, Hc, Hd.
Qed.

(** C8.  Each of the three functions starts from the value-initialised
    message, every field of which is zero, and hands that message to
    [msg_set_target]; the statements that follow change the fields they name
    and no other.  So, whatever [msg_set_target] (and, in
    [set_attitude_target], the quaternion conversion) does, a field the
    function does not assign holds, in the message that is sent, what
    [msg_set_target] left in it: zero, for every field [msg_set_target]
    left as it received it.  Where [msg_set_target] writes nothing, every
    field the function does not assign is zero in the message that is
    sent. *)
Theorem unassigned_fields_zero
    (uas : UAS.t) (time_boot_ms coordinate_frame type_mask lat_int lon_int : Z)
    (alt yaw yaw_rate thrust : float32) (p v af body_rate : Vector3d.t)
    (orientation : Quaterniond.t) :
  (forall msg_set_target : L.t -> State UAS.t L.t,
     let targeted := fst (msg_set_target L.zero uas) in
     let uas1 := snd (msg_set_target L.zero uas) in
     let sp := sp_local_ned_via msg_set_target uas time_boot_ms coordinate_frame
                 type_mask p v af yaw yaw_rate in
     UAS.link (exec (set_position_target_local_ned_via msg_set_target
                       time_boot_ms coordinate_frame type_mask p v af yaw yaw_rate)
                 uas) =
       UAS.link uas1 ++ [UAS.LocalNED sp] /\
     forall f : L.field,
       is_zero (L.get f L.zero) = true /\
       (local_ned_assigned f = false -> L.get f sp = L.get f targeted) /\
       (local_ned_assigned f = false -> L.get f targeted = L.get f L.zero ->
        is_zero (L.get f sp) = true)) /\
  (forall msg_set_target : G.t -> State UAS.t G.t,
     let targeted := fst (msg_set_target G.zero uas) in
     let uas1 := snd (msg_set_target G.zero uas) in
     let sp := sp_global_int_via msg_set_target uas time_boot_ms coordinate_frame
                 type_mask lat_int lon_int alt v af yaw yaw_rate in
     UAS.link (exec (set_position_target_global_int_via msg_set_target
                       time_boot_ms coordinate_frame type_mask lat_int lon_int alt
                       v af yaw yaw_rate) uas) =
       UAS.link uas1 ++ [UAS.GlobalInt sp] /\
     forall f : G.field,
       is_zero (G.get f G.zero) = true /\
       (global_int_assigned f = false -> G.get f sp = G.get f targeted) /\
       (global_int_assigned f = false -> G.get f targeted = G.get f G.zero ->
        is_zero (G.get f sp) = true)) /\
  (forall (msg_set_target : A.t -> State UAS.t A.t)
          (quaternion_to_mavlink : Quaterniond.t -> list float32),
     let targeted := fst (msg_set_target A.zero uas) in
     let uas1 := snd (msg_set_target A.zero uas) in
     let sp := sp_attitude_via msg_set_target quaternion_to_mavlink uas
                 time_boot_ms type_mask orientation body_rate thrust in
     UAS.link (exec (set_attitude_target_via msg_set_target quaternion_to_mavlink
                       time_boot_ms type_mask orientation body_rate thrust) uas) =
       UAS.link uas1 ++ [UAS.AttitudeTarget sp] /\
     forall f : A.field,
       is_zero (A.get f A.zero) = true /\
       (attitude_assigned f = false -> A.get f sp = A.get f targeted) /\
       (attitude_assigned f = false -> A.get f targeted = A.get f A.zero ->
        is_zero (A.get f sp) = true)) /\
  (forall f : L.field,
     local_ned_assigned f = false ->
     is_zero (L.get f (sp_local_ned_via (fun msg => ret msg) uas time_boot_ms
                         coordinate_frame type_mask p v af yaw yaw_rate)) = true) /\
  (forall f : G.field,
     global_int_assigned f = false ->
     is_zero (G.get f (sp_global_int_via (fun msg => ret msg) uas time_boot_ms
                         coordinate_frame type_mask lat_int lon_int alt
                         v af yaw yaw_rate)) = true) /\
  (forall (quaternion_to_mavlink : Quaterniond.t -> list float32) (f : A.field),
     attitude_assigned f = false ->
     is_zero (A.get f (sp_attitude_via (fun msg => ret msg) quaternion_to_mavlink
                         uas time_boot_ms type_mask orientation body_rate thrust)) =
       true).
Proof.
  split; [|split; [|split; [|split; [|split]]]].
  - intros mst. cbn zeta.
    unfold exec, set_position_target_local_ned_via, sp_local_ned_via, bind.
    destruct (mst L.zero uas) as [targeted uas1]. split; [reflexivity|].
    intros f. split; [now destruct f|].
    assert (Hk : local_ned_assigned f = false ->
                 L.get f (assign_local_ned time_boot_ms coordinate_frame type_mask
                            p v af yaw yaw_rate targeted) = L.get f targeted)
      by (destruct targeted, f; intros H; try discriminate H; reflexivity).
    split; [exact Hk|]. cbn [fst]. intros Ha Hz. rewrite (Hk Ha), Hz. now destruct f.
  - intros mst. cbn zeta.
    unfold exec, set_position_target_global_int_via, sp_global_int_via, bind.
    destruct (mst G.zero uas) as [targeted uas1]. split; [reflexivity|].
    intros f. split; [now destruct f|].
    assert (Hk : global_int_assigned f = false ->
                 G.get f (assign_global_int time_boot_ms coordinate_frame type_mask
                            lat_int lon_int alt v af yaw yaw_rate targeted) =
                 G.get f targeted)
      by (destruct targeted, f; intros H; try discriminate H; reflexivity).
    split; [exact Hk|]. cbn [fst]. intros Ha Hz. rewrite (Hk Ha), Hz. now destruct f.
  - intros mst q2m. cbn zeta.
    unfold exec, set_attitude_target_via, sp_attitude_via, bind.
    destruct (mst A.zero uas) as [targeted uas1]. split; [reflexivity|].
    intros f. split; [now destruct f|].
    assert (Hk : attitude_assigned f = false ->
                 A.get f (assign_attitude time_boot_ms type_mask body_rate thrust
                            (A.set_q (q2m orientation) targeted)) =
                 A.get f targeted)
      by (destruct targeted, f; intros H; try discriminate H; reflexivity).
    split; [exact Hk|]. cbn [fst]. intros Ha Hz. rewrite (Hk Ha), Hz. now destruct f.
  - intros f H. destruct f; try discriminate H; reflexivity.
  - intros f H. destruct f; try discriminate H; reflexivity.
  - intros q2m f H. destruct f; try discriminate H; reflexivity.
Qed.

(** C8, instances.  With the [msg_set_target] of the UAS, [thrust_body],
    which neither [set_attitude_target] nor [msg_set_target] writes, is zero
    in the message, and [target_system], which no assignment of
    [set_position_target_local_ned] names, is as [msg_set_target] left it.
    With a [msg_set_target] that fills [target_system] only,
    [target_component] is zero in the message
    [set_position_target_global_int] sends. *)
Lemma unassigned_fields_zero_witness :
  let uas := UAS.mk 1 2 [] in
  let o := Vector3d.mk one64 half64 zero64 in
  let q := Quaterniond.mk one64 zero64 zero64 zero64 in
  let system_only : G.t -> State UAS.t G.t :=
    fun msg => gets (fun uas => G.set_target_system (UAS.tgt_system uas) msg) in
  ((attitude_assigned A.f_thrust_body = false /\
    A.get A.f_thrust_body (fst (UAS.msg_set_target A.zero uas)) =
      A.get A.f_thrust_body A.zero) /\
   is_zero (A.get A.f_thrust_body (sp_attitude uas 7 0 q o zero32)) = true) /\
  (local_ned_assigned L.f_target_system = false /\
   L.get L.f_target_system (sp_local_ned uas 7 1 0 o o o zero32 zero32) = VInt 1) /\
  ((global_int_assigned G.f_target_component = false /\
    G.get G.f_target_component (fst (system_only G.zero uas)) =
      G.get G.f_target_component G.zero) /\
   is_zero (G.get G.f_target_component
              (sp_global_int_via system_only uas 7 5 0 0 0 zero32 o o zero32 zero32)) =
     true).
Proof.
  intros uas o q system_only.
  pose proof (unassigned_fields_zero uas 7 1 0 0 0 zero32 zero32 zero32 zero32
                o o o o q) as (HL & HG & HA & _).
  split; [|split].
  - split; [split; reflexivity|].
    exact (proj2 (proj2 (proj2 (HA UAS.msg_set_target ftf.quaternion_to_mavlink)
                           A.f_thrust_body)) eq_refl eq_refl).
  - split; [reflexivity|].
    exact (proj1 (proj2 (proj2 (HL UAS.msg_set_target) L.f_target_system)) eq_refl).
  - split; [split; reflexivity|].
    exact (proj2 (proj2 (proj2 (HG system_only) G.f_target_component))
             eq_refl eq_refl).
Defined.

End MixinFacts.

(** ** Streams of messages through the MagCalStatus plugin *)

Section MagCalStreams.
Import Fixed St MagCal.

Lemma exec_seq {S : Type} (m k : State S unit) (s : S) :
  exec (m ;; k) s = exec k (exec m s).
Proof. unfold exec, bind. destruct (m s) as [[] s']. reflexivity. Qed.

Lemma exec_ret {S : Type} (s : S) : exec (ret tt) s = s.
Proof. reflexivity. Qed.

(** Each message runs the handler made for its type, and no other. *)
Lemma exec_deliver (msg : incoming) (p : MagCalStatusPlugin) :
  exec (deliver msg) p =
  match msg with
  | Progress mp => exec (handle_status mp) p
  | Report mr => exec (handle_report mr) p
  | Other => p
  end.
Proof.
  destruct msg as [mp|mr|]; unfold deliver, get_subscriptions; simpl.
  - now rewrite exec_seq, exec_ret.
  - now rewrite exec_seq, exec_ret.
  - reflexivity.
Qed.

Lemma exec_deliver_all_cons (msg : incoming) (msgs : list incoming)
    (p : MagCalStatusPlugin) :
  exec (deliver_all (msg :: msgs)) p = exec (deliver_all msgs) (exec (deliver msg) p).
Proof. simpl. apply exec_seq. Qed.

Lemma exec_handle_report (mr : MAG_CAL_REPORT) (p : MagCalStatusPlugin) :
  exec (handle_report mr) p =
  {| _rgCompassCalProgress := _rgCompassCalProgress p;
     mcs_pub := mcs_pub p;
     mcr_pub := mcr_pub p ++ [cal_status mr] |}.
Proof. reflexivity. Qed.

Lemma exec_deliver_all_app (l1 l2 : list incoming) (p : MagCalStatusPlugin) :
  exec (deliver_all (l1 ++ l2)) p = exec (deliver_all l2) (exec (deliver_all l1) p).
Proof.
  revert p. induction l1 as [|m l1 IH]; intros p; [reflexivity|].
  simpl app. now rewrite !exec_deliver_all_cons, IH.
Qed.

Lemma no_progress_unchanged (msgs : list incoming) (p : MagCalStatusPlugin) :
  progress_count msgs = 0%nat ->
  _rgCompassCalProgress (exec (deliver_all msgs) p) = _rgCompassCalProgress p /\
  mcs_pub (exec (deliver_all msgs) p) = mcs_pub p.
Proof.
  revert p. induction msgs as [|msg msgs IH]; intros p Hc; [split; reflexivity|].
  rewrite exec_deliver_all_cons, exec_deliver.
  destruct msg as [mp|mr|]; [discriminate Hc| |]; simpl in Hc.
  - destruct (IH (exec (handle_report mr) p) Hc) as [Ha Hs].
    rewrite Ha, Hs, exec_handle_report. split; reflexivity.
  - now apply IH.
Qed.

Lemma first_progress_report (msgs : list incoming) :
  progress_count msgs <> 0%nat ->
  exists (pre : list incoming) (mp : MAG_CAL_PROGRESS) (post : list incoming),
    msgs = pre ++ Progress mp :: post.
Proof.
  induction msgs as [|m l IH]; intros Hc; [contradiction|].
  destruct m as [mp|mr|].
  - exists [], mp, l. reflexivity.
  - destruct (IH Hc) as (pre & mp & post & ->).
    exists (Report mr :: pre), mp, post. reflexivity.
  - destruct (IH Hc) as (pre & mp & post & ->).
    exists (Other :: pre), mp, post. reflexivity.
Qed.

Lemma latched_after_handle_status (mp : MAG_CAL_PROGRESS) (p : MagCalStatusPlugin) :
  latched (mcs_pub (exec (handle_status mp) p)) =
  Some (progress_sum (exec (handle_status mp) p) mod 256).
Proof.
  rewrite progress_sum_exec_handle_status, exec_handle_status.
  cbn [mcs_pub]. unfold latched. apply last_snoc.
Qed.

Lemma latched_preserved (msgs : list incoming) (p : MagCalStatusPlugin) :
  latched (mcs_pub p) = Some (progress_sum p mod 256) ->
  latched (mcs_pub (exec (deliver_all msgs) p)) =
  Some (progress_sum (exec (deliver_all msgs) p) mod 256).
Proof.
  revert p. induction msgs as [|msg msgs IH]; intros p Hp; [exact Hp|].
  rewrite exec_deliver_all_cons, exec_deliver. apply IH.
  destruct msg as [mp|mr|]; [|exact Hp|exact Hp].
  apply latched_after_handle_status.
Qed.

Lemma latched_after_progress (msgs : list incoming) (p : MagCalStatusPlugin) :
  progress_count msgs <> 0%nat ->
  latched (mcs_pub (exec (deliver_all msgs) p)) =
  Some (progress_sum (exec (deliver_all msgs) p) mod 256).
Proof.
  intros Hc. destruct (first_progress_report msgs Hc) as (pre & mp & post & ->).
  rewrite exec_deliver_all_app, exec_deliver_all_cons, exec_deliver.
  apply latched_preserved, latched_after_handle_status.
Qed.

(** X1.  Whatever stream of messages reaches the plugin, in whatever state,
    the report publisher receives the [cal_status] of every final report of
    the stream, in the order of arrival and nothing else, and the progress
    publisher receives one message for every progress report; a stream
    without progress reports leaves the array and the progress publisher as
    they were. *)
Theorem stream_publications (msgs : list incoming) (p : MagCalStatusPlugin) :
  let p' := exec (deliver_all msgs) p in
  mcr_pub p' = mcr_pub p ++ reports_of msgs /\
  length (mcs_pub p') = (length (mcs_pub p) + progress_count msgs)%nat /\
  (progress_count msgs = 0%nat ->
   _rgCompassCalProgress p' = _rgCompassCalProgress p /\ mcs_pub p' = mcs_pub p).
Proof.
  revert p. induction msgs as [|msg msgs IH]; intros p.
  - change (exec (deliver_all []) p) with p. cbn zeta.
    rewrite app_nil_r, Nat.add_0_r. repeat split.
  - cbn zeta. rewrite exec_deliver_all_cons.
    specialize (IH (exec (deliver msg) p)). cbn zeta in IH.
    destruct IH as (IHr & IHs & IH0). rewrite exec_deliver in *.
    destruct msg as [mp|mr|]; simpl reports_of; simpl progress_count.
    + rewrite exec_handle_status in *. cbn [mcr_pub mcs_pub] in *.
      split; [exact IHr|]. split; [|discriminate].
      rewrite IHs, length_app. simpl. lia.
    + rewrite exec_handle_report in *. cbn [mcr_pub mcs_pub _rgCompassCalProgress] in *.
      split; [now rewrite IHr, <- app_assoc|]. split; [exact IHs | exact IH0].
    + split; [exact IHr|]. split; [exact IHs | exact IH0].
Qed.

(** X1, an instance: a stream with no progress report. *)
Lemma stream_publications_witness :
  let msgs := [Report {| cal_status := 4 |}; Other; Report {| cal_status := 2 |}] in
  let p' := exec (deliver_all msgs) initial in
  progress_count msgs = 0%nat /\
  _rgCompassCalProgress p' = [0; 0; 0] /\ mcs_pub p' = [] /\ mcr_pub p' = [4; 2].
Proof.
  intros msgs p'.
  destruct (stream_publications msgs initial) as (Hr & _ & H0).
  split; [reflexivity|]. destruct (H0 eq_refl) as [Ha Hs].
  split; [exact Ha|]. split; [exact Hs | exact Hr].
Defined.

(** X2.  The two handlers work on separate parts of the plugin: the array
    and the progress publisher end as if the progress reports of the stream
    had arrived alone, so final reports and foreign messages can be moved or
    dropped without any effect on the published progress. *)
Theorem progress_side_independent (msgs : list incoming) (p : MagCalStatusPlugin) :
  let p' := exec (deliver_all msgs) p in
  let q' := exec (deliver_all (progress_only msgs)) p in
  _rgCompassCalProgress p' = _rgCompassCalProgress q' /\
  mcs_pub p' = mcs_pub q' /\
  mcr_pub q' = mcr_pub p.
Proof.
  cbn zeta.
  assert (Hgen : forall (msgs : list incoming) (p q : MagCalStatusPlugin),
            _rgCompassCalProgress p = _rgCompassCalProgress q ->
            mcs_pub p = mcs_pub q ->
            _rgCompassCalProgress (exec (deliver_all msgs) p) =
              _rgCompassCalProgress (exec (deliver_all (progress_only msgs)) q) /\
            mcs_pub (exec (deliver_all msgs) p) =
              mcs_pub (exec (deliver_all (progress_only msgs)) q) /\
            mcr_pub (exec (deliver_all (progress_only msgs)) q) = mcr_pub q).
  { clear. induction msgs as [|msg msgs IH]; intros p q Ha Hs.
    - simpl. auto.
    - rewrite exec_deliver_all_cons, exec_deliver.
      destruct msg as [mp|mr|]; simpl progress_only.
      + rewrite exec_deliver_all_cons, exec_deliver.
        destruct (IH (exec (handle_status mp) p) (exec (handle_status mp) q))
          as (H1 & H2 & H3).
        * rewrite !exec_handle_status. cbn. now rewrite Ha.
        * rewrite !exec_handle_status. cbn. unfold progress_sum. cbn.
          now rewrite Ha, Hs.
        * split; [exact H1|]. split; [exact H2|].
          rewrite H3, exec_handle_status. reflexivity.
      + apply IH; rewrite exec_handle_report; assumption.
      + now apply IH. }
  now apply Hgen.
Qed.

(** X3.  Once a progress report has been handled, the value a late
    subscriber of the latched progress topic receives is the sum of the
    cells as they are now, modulo 256, however many final reports or foreign
    messages have arrived since; before the first progress report nothing is
    latched and the cells are zero. *)
Theorem latched_aggregate_current (msgs : list incoming) :
  let p := exec (deliver_all msgs) initial in
  match progress_count msgs with
  | O => latched (mcs_pub p) = None /\ _rgCompassCalProgress p = [0; 0; 0]
  | S _ => latched (mcs_pub p) = Some (progress_sum p mod 256)
  end.
Proof.
  cbn zeta. destruct (progress_count msgs) as [|n] eqn:Hc.
  - destruct (no_progress_unchanged msgs initial Hc) as [Ha Hs].
    rewrite Ha, Hs. split; reflexivity.
  - apply latched_after_progress. rewrite Hc. discriminate.
Qed.

(** X4.  A progress report that arrives twice in a row is absorbed: the
    second copy leaves the array as the first left it and publishes the same
    aggregate once more. *)
Theorem repeated_report_absorbed (mp : MAG_CAL_PROGRESS) (p : MagCalStatusPlugin) :
  let p1 := exec (handle_status mp) p in
  let p2 := exec (handle_status mp) p1 in
  _rgCompassCalProgress p2 = _rgCompassCalProgress p1 /\
  mcs_pub p2 = mcs_pub p ++ [progress_sum p1 mod 256; progress_sum p1 mod 256] /\
  mcr_pub p2 = mcr_pub p.
Proof.
  cbn zeta. rewrite progress_sum_exec_handle_status, !exec_handle_status.
  cbn [_rgCompassCalProgress mcs_pub mcr_pub].
  assert (Hidem : updated_progress mp (updated_progress mp (_rgCompassCalProgress p)) =
                  updated_progress mp (_rgCompassCalProgress p)).
  { unfold updated_progress. destruct (_ && _); [apply list_insert_insert_eq | reflexivity]. }
  unfold progress_sum. cbn [_rgCompassCalProgress]. rewrite Hidem.
  split; [reflexivity|]. split; [|reflexivity].
  now rewrite <- app_assoc.
Qed.

(** X5.  The last accepted report of a compass wins: when a report with
    [compass_id < 3] and a bit among the low three bits of its mask follows
    another report for the same compass, the array and the latched aggregate
    are what the later report alone would have produced. *)
Theorem later_report_overwrites (mp1 mp2 : MAG_CAL_PROGRESS) (p : MagCalStatusPlugin) :
  compass_id mp1 = compass_id mp2 ->
  compass_id mp2 < 3 -> Z.land (cal_mask mp2) 7 <> 0 ->
  let p12 := exec (handle_status mp1 ;; handle_status mp2) p in
  let p2 := exec (handle_status mp2) p in
  _rgCompassCalProgress p12 = _rgCompassCalProgress p2 /\
  latched (mcs_pub p12) = latched (mcs_pub p2).
Proof.
  intros Hid Hlt Hbits. cbn zeta. rewrite exec_seq, !exec_handle_status.
  cbn [_rgCompassCalProgress mcs_pub mcr_pub].
  assert (Hover : updated_progress mp2 (updated_progress mp1 (_rgCompassCalProgress p)) =
                  updated_progress mp2 (_rgCompassCalProgress p)).
  { unfold updated_progress at 1 3.
    replace (compass_id mp2 <? 3) with true by (symmetry; apply Z.ltb_lt; lia).
    replace (compassCalCount (cal_mask mp2) =? 0) with false.
    2:{ symmetry. apply Z.eqb_neq. intros E. now apply compassCalCount_zero in E. }
    simpl. unfold updated_progress. rewrite Hid.
    destruct (_ && _); [apply list_insert_insert_eq | reflexivity]. }
  unfold progress_sum. cbn [_rgCompassCalProgress]. rewrite Hover.
  split; [reflexivity|]. unfold latched. now rewrite !last_snoc.
Qed.

(** X5, an instance: compass 0 first at 50, then at 80. *)
Lemma later_report_overwrites_witness :
  let mp1 := {| compass_id := 0; cal_mask := 3; completion_pct := 50 |} in
  let mp2 := {| compass_id := 0; cal_mask := 3; completion_pct := 80 |} in
  (compass_id mp1 = compass_id mp2 /\ compass_id mp2 < 3 /\
   Z.land (cal_mask mp2) 7 <> 0) /\
  _rgCompassCalProgress (exec (handle_status mp1 ;; handle_status mp2) initial) =
    [40; 0; 0].
Proof.
  intros mp1 mp2.
  assert (H1 : compass_id mp1 = compass_id mp2) by reflexivity.
  assert (H2 : compass_id mp2 < 3) by reflexivity.
  assert (H3 : Z.land (cal_mask mp2) 7 <> 0) by discriminate.
  split; [auto|].
  exact (proj1 (later_report_overwrites mp1 mp2 initial H1 H2 H3)).
Defined.

(** X6.  Reports of different compasses do not disturb each other: handled
    in either order they leave the same array and the same latched
    aggregate. *)
Theorem reports_of_different_compasses_commute
    (mp1 mp2 : MAG_CAL_PROGRESS) (p : MagCalStatusPlugin) :
  wf_progress mp1 -> wf_progress mp2 -> compass_id mp1 <> compass_id mp2 ->
  let p12 := exec (handle_status mp1 ;; handle_status mp2) p in
  let p21 := exec (handle_status mp2 ;; handle_status mp1) p in
  _rgCompassCalProgress p12 = _rgCompassCalProgress p21 /\
  latched (mcs_pub p12) = latched (mcs_pub p21).
Proof.
  intros ((Hid1 & _) & _) ((Hid2 & _) & _) Hne. cbn zeta.
  rewrite !exec_seq, !exec_handle_status.
  cbn [_rgCompassCalProgress mcs_pub mcr_pub].
  assert (Hcomm : updated_progress mp2 (updated_progress mp1 (_rgCompassCalProgress p)) =
                  updated_progress mp1 (updated_progress mp2 (_rgCompassCalProgress p))).
  { unfold updated_progress. destruct (_ && _), (_ && _); try reflexivity.
    apply list_insert_insert_ne. lia. }
  unfold progress_sum. cbn [_rgCompassCalProgress]. rewrite Hcomm.
  split; [reflexivity|]. unfold latched. now rewrite !last_snoc.
Qed.

(** X6, an instance: the two reports of the calibration scenario. *)
Lemma reports_of_different_compasses_commute_witness :
  (wf_progress report_a /\ wf_progress report_b /\
   compass_id report_a <> compass_id report_b) /\
  _rgCompassCalProgress (exec (handle_status report_b ;; handle_status report_a) initial) =
    [25; 50; 0] /\
  latched (mcs_pub (exec (handle_status report_b ;; handle_status report_a) initial)) =
    Some 75.
Proof.
  assert (Ha : wf_progress report_a) by (compute; repeat split; discriminate).
  assert (Hb : wf_progress report_b) by (compute; repeat split; discriminate).
  assert (Hne : compass_id report_a <> compass_id report_b) by discriminate.
  split; [auto|].
  destruct (reports_of_different_compasses_commute report_a report_b initial Ha Hb Hne)
    as [H1 H2].
  split; [symmetry; exact H1 | symmetry; exact H2].
Defined.

(** X7.  The handler uses [cal_mask] only through the number of bits set
    among its low three bits: two reports for the same compass with the same
    percentage and that number equal have the same effect.  Bits above
    bit 2 are ignored, and whether the bit of the reporting compass itself is
    set is never looked at. *)
Theorem mask_matters_by_count (mp mp' : MAG_CAL_PROGRESS) (p : MagCalStatusPlugin) :
  compass_id mp = compass_id mp' ->
  completion_pct mp = completion_pct mp' ->
  popcount8 (Z.land (cal_mask mp) 7) = popcount8 (Z.land (cal_mask mp') 7) ->
  exec (handle_status mp) p = exec (handle_status mp') p.
Proof.
  intros Hid Hpct Hcount. rewrite <- !compassCalCount_popcount in Hcount.
  rewrite !exec_handle_status. unfold updated_progress.
  now rewrite Hid, Hpct, Hcount.
Qed.

(** X7, an instance: compass 0 reporting 50 under the mask 0b001 and under
    the mask 0b1100, which names compass 2 and a fourth compass. *)
Lemma mask_matters_by_count_witness :
  let mp := {| compass_id := 0; cal_mask := 1; completion_pct := 50 |} in
  let mp' := {| compass_id := 0; cal_mask := 12; completion_pct := 50 |} in
  (compass_id mp = compass_id mp' /\ completion_pct mp = completion_pct mp' /\
   popcount8 (Z.land (cal_mask mp) 7) = popcount8 (Z.land (cal_mask mp') 7)) /\
  exec (handle_status mp') initial =
    {| _rgCompassCalProgress := [50; 0; 0]; mcs_pub := [50]; mcr_pub := [] |}.
Proof.
  intros mp mp'. split; [repeat split|].
  rewrite <- (mask_matters_by_count mp mp' initial eq_refl eq_refl eq_refl).
  reflexivity.
Defined.

(** The shares of the three compasses add up to the number of compasses of
    the mask times the share of one. *)
Lemma share_total (mask : Z) :
  share mask 0 + share mask 1 + share mask 2 =
  compassCalCount mask * (100 ÷ compassCalCount mask).
Proof.
  unfold share. rewrite compassCalCount_bits. unfold bit.
  destruct (Z.testbit mask 0), (Z.testbit mask 1), (Z.testbit mask 2); reflexivity.
Qed.

Lemma share_range (mask i : Z) : 0 <= share mask i <= 100.
Proof.
  unfold share. rewrite compassCalCount_bits. unfold bit.
  destruct (Z.testbit mask i); [|lia].
  destruct (Z.testbit mask 0), (Z.testbit mask 1), (Z.testbit mask 2);
    compute; split; discriminate.
Qed.

Lemma full_bar (mask : Z) :
  compassCalCount mask * (100 ÷ compassCalCount mask) <= 100 /\
  (compassCalCount mask = 3 ->
   compassCalCount mask * (100 ÷ compassCalCount mask) = 99).
Proof.
  rewrite compassCalCount_bits. unfold bit.
  destruct (Z.testbit mask 0), (Z.testbit mask 1), (Z.testbit mask 2);
    (split; [compute; discriminate | intros H; try discriminate H; reflexivity]).
Qed.

Lemma within_shares_sum (mask : Z) (p : MagCalStatusPlugin) :
  within_shares mask (_rgCompassCalProgress p) ->
  0 <= progress_sum p <= compassCalCount mask * (100 ÷ compassCalCount mask).
Proof.
  intros (a & b & c & Hl & Ha & Hb & Hc).
  unfold progress_sum. rewrite Hl, <- share_total. simpl. lia.
Qed.

(** A report of the session keeps every compass within its share. *)
Lemma session_report_keeps_shares (mask : Z) (mp : MAG_CAL_PROGRESS) (l : list Z) :
  within_shares mask l -> session_report mask mp ->
  within_shares mask (updated_progress mp l).
Proof.
  intros (a & b & c & -> & Ha & Hb & Hc) (Hm & Hid & Hbit & Hpct).
  assert (Hk : 1 <= compassCalCount mask).
  { rewrite compassCalCount_bits. unfold bit.
    assert (Hcase : compass_id mp = 0 \/ compass_id mp = 1 \/ compass_id mp = 2) by lia.
    destruct Hcase as [E|[E|E]]; rewrite E in Hbit; rewrite Hbit;
      destruct (Z.testbit mask 0), (Z.testbit mask 1), (Z.testbit mask 2); lia. }
  assert (Hshare : share mask (compass_id mp) = 100 ÷ compassCalCount mask)
    by (unfold share; now rewrite Hbit).
  assert (Hv : 0 <= completion_pct mp ÷ compassCalCount mask <=
               share mask (compass_id mp)).
  { rewrite Hshare. split.
    - apply Z.quot_pos; lia.
    - apply Z.quot_le_mono; lia. }
  pose proof (share_range mask (compass_id mp)) as Hr.
  unfold updated_progress. rewrite Hm.
  replace (compass_id mp <? 3) with true by (symmetry; apply Z.ltb_lt; lia).
  replace (compassCalCount mask =? 0) with false by (symmetry; apply Z.eqb_neq; lia).
  simpl. rewrite to_uint8_small by (unfold is_uint8; lia).
  assert (Hcase : compass_id mp = 0 \/ compass_id mp = 1 \/ compass_id mp = 2) by lia.
  destruct Hcase as [E|[E|E]]; rewrite E in *; simpl.
  - exists (completion_pct mp ÷ compassCalCount mask), b, c. auto.
  - exists a, (completion_pct mp ÷ compassCalCount mask), c. auto.
  - exists a, b, (completion_pct mp ÷ compassCalCount mask). auto.
Qed.

(** The invariant of a session: every compass within its share, every
    published aggregate within the full bar. *)
Lemma session_invariant (mask : Z) (msgs : list incoming) (p : MagCalStatusPlugin) :
  Forall (session_message mask) msgs ->
  within_shares mask (_rgCompassCalProgress p) ->
  Forall (fun v => 0 <= v <= compassCalCount mask * (100 ÷ compassCalCount mask))
    (mcs_pub p) ->
  within_shares mask (_rgCompassCalProgress (exec (deliver_all msgs) p)) /\
  Forall (fun v => 0 <= v <= compassCalCount mask * (100 ÷ compassCalCount mask))
    (mcs_pub (exec (deliver_all msgs) p)).
Proof.
  intros Hmsgs. revert p.
  induction Hmsgs as [|msg msgs Hmsg _ IH]; intros p Hsh Hpub; [split; assumption|].
  rewrite exec_deliver_all_cons, exec_deliver.
  destruct msg as [mp|mr|]; [|now apply IH|now apply IH].
  assert (Hsh' : within_shares mask (_rgCompassCalProgress (exec (handle_status mp) p))).
  { rewrite exec_handle_status. cbn [_rgCompassCalProgress].
    now apply session_report_keeps_shares. }
  apply IH; [exact Hsh'|].
  pose proof (within_shares_sum mask _ Hsh') as Hsum.
  pose proof (proj1 (full_bar mask)) as Hbar.
  revert Hsum. rewrite progress_sum_exec_handle_status, exec_handle_status.
  cbn [mcs_pub]. intros Hsum.
  apply Forall_app. split; [exact Hpub|]. constructor; [|constructor].
  unfold to_uint8. rewrite Z.mod_small by lia. exact Hsum.
Qed.

(** X8.  During a calibration session that starts with the plugin fresh, in
    which every progress report carries the same mask, comes from a compass
    of that mask and reports at most 100 percent, every compass stays within
    its share (100 divided, truncating, by the number of compasses) and every
    published aggregate is the plain sum of the cells, without wrap-around,
    at most the number of compasses times one share: never more than 100,
    and never more than 99 when three compasses are calibrated together. *)
Theorem session_aggregate_bounded (mask : Z) (msgs : list incoming) :
  Forall (session_message mask) msgs ->
  let p := exec (deliver_all msgs) initial in
  let bar := compassCalCount mask * (100 ÷ compassCalCount mask) in
  (bar <= 100 /\ (compassCalCount mask = 3 -> bar = 99)) /\
  within_shares mask (_rgCompassCalProgress p) /\
  0 <= progress_sum p <= bar /\
  Forall (fun v => 0 <= v <= bar) (mcs_pub p) /\
  (progress_count msgs <> 0%nat -> latched (mcs_pub p) = Some (progress_sum p)).
Proof.
  intros Hmsgs. cbn zeta.
  assert (Hinit : within_shares mask (_rgCompassCalProgress initial)).
  { exists 0, 0, 0. pose proof (share_range mask 0). pose proof (share_range mask 1).
    pose proof (share_range mask 2). simpl. repeat split; lia. }
  destruct (session_invariant mask msgs initial Hmsgs Hinit) as [Hsh Hpub];
    [constructor|].
  pose proof (within_shares_sum mask _ Hsh) as Hsum.
  pose proof (full_bar mask) as Hbar.
  split; [exact Hbar|]. split; [exact Hsh|]. split; [exact Hsum|].
  split; [exact Hpub|].
  intros Hc. rewrite (latched_after_progress msgs initial Hc).
  f_equal. apply Z.mod_small. lia.
Qed.

(** X8, an instance: the calibration scenario followed by a final report,
    a session over the compasses 0 and 1. *)
Lemma session_aggregate_bounded_witness :
  let msgs := [Progress report_a; Progress report_b; Report {| cal_status := 4 |}] in
  let p := exec (deliver_all msgs) initial in
  Forall (session_message 3) msgs /\
  Forall (fun v => 0 <= v <= 100) (mcs_pub p) /\
  latched (mcs_pub p) = Some (progress_sum p).
Proof.
  intros msgs p.
  assert (Hmsgs : Forall (session_message 3) msgs).
  { repeat constructor; compute; discriminate. }
  split; [exact Hmsgs|].
  destruct (session_aggregate_bounded 3 msgs Hmsgs) as (_ & _ & _ & Hpub & Hlast).
  split; [exact Hpub|]. apply Hlast. discriminate.
Defined.

End MagCalStreams.

(** ** Sequences of setpoints *)

Section MixinSequences.
Import St Float Mixin.

Lemma exec_run_call (c : call) (uas : UAS.t) :
  exec (run_call c) uas =
  UAS.mk (UAS.tgt_system uas) (UAS.tgt_component uas)
    (UAS.link uas ++ [message_of uas c]).
Proof. destruct c; reflexivity. Qed.

(** X9.  Calls of the three functions, in any number and order, never
    change the target of the UAS and never touch what is on the link
    already: each call appends one message, in the order of the calls, and
    that message is the one the call would have sent on its own, whatever was
    sent before. *)
Theorem calls_append_in_order (calls : list call) (uas : UAS.t) :
  let uas' := exec (run_calls calls) uas in
  UAS.link uas' = UAS.link uas ++ map (message_of uas) calls /\
  UAS.tgt_system uas' = UAS.tgt_system uas /\
  UAS.tgt_component uas' = UAS.tgt_component uas.
Proof.
  cbn zeta. revert uas. induction calls as [|c calls IH]; intros uas.
  - simpl. rewrite app_nil_r. repeat split.
  - simpl run_calls. rewrite exec_seq.
    destruct (IH (exec (run_call c) uas)) as (Hl & Hs & Hc).
    rewrite Hl, Hs, Hc, exec_run_call. cbn [UAS.link UAS.tgt_system UAS.tgt_component].
    split; [|split; reflexivity].
    rewrite <- app_assoc. simpl. do 2 f_equal.
Qed.

(** X10.  The message tells the calls apart as far as single precision
    allows: two calls put the same message together exactly when they are
    calls of the same function, for the same target, with the same integer
    and [float] arguments, and with vectors (and an orientation) whose
    components agree after the conversion to [float].  No two arguments share
    a field, and no two functions share a message. *)
Theorem same_message_iff (uas uas' : UAS.t) (c c' : call) :
  message_of uas c = message_of uas' c' <-> same_on_the_wire uas c uas' c'.
Proof.
  destruct uas as [ts tc lk], uas' as [ts' tc' lk'].
  unfold same_on_the_wire, Vector3d.same_floats.
  destruct c as [t f m [px py pz] [vx vy vz] [ax ay az] w wr
                |t f m la lo al [vx vy vz] [ax ay az] w wr
                |t m o [rx ry rz] th],
           c' as [t' f' m' [px' py' pz'] [vx' vy' vz'] [ax' ay' az'] w' wr'
                 |t' f' m' la' lo' al' [vx' vy' vz'] [ax' ay' az'] w' wr'
                 |t' m' o' [rx' ry' rz'] th'];
    cbn; (split; [intros H | intros (Hs & Hc & H)]);
    try discriminate H; try contradiction H.
  - injection H as ?. repeat split; congruence.
  - destruct H as (-> & -> & -> & -> & -> &
                   (H1 & H2 & H3) & (H4 & H5 & H6) & (H7 & H8 & H9)).
    now rewrite Hs, Hc, H1, H2, H3, H4, H5, H6, H7, H8, H9.
  - injection H as ?. repeat split; congruence.
  - destruct H as (-> & -> & -> & -> & -> & -> & -> & -> &
                   (H1 & H2 & H3) & (H4 & H5 & H6)).
    now rewrite Hs, Hc, H1, H2, H3, H4, H5, H6.
  - injection H as ?. unfold ftf.quaternion_to_mavlink. repeat split; congruence.
  - destruct H as (-> & -> & -> & Hq & (H1 & H2 & H3)).
    now rewrite Hs, Hc, Hq, H1, H2, H3.
Qed.

(** X10, an instance: the positions (0.1, 0, 0) and (0.1f, 0, 0) are sent
    as the same message, and no attitude call sends it. *)
Lemma same_message_iff_witness :
  let uas := UAS.mk 1 1 [] in
  let o := Vector3d.mk zero64 zero64 zero64 in
  let p := Vector3d.mk tenth64 zero64 zero64 in
  let p' := Vector3d.through_float p in
  let c := call_local_ned 0 1 0 p o o zero32 zero32 in
  let c' := call_local_ned 0 1 0 p' o o zero32 zero32 in
  (p <> p' /\ same_on_the_wire uas c uas c') /\
  message_of uas c = message_of uas c'.
Proof.
  intros uas o p p' c c'.
  assert (H : same_on_the_wire uas c uas c') by (repeat split).
  split; [split; [discriminate | exact H]|].
  exact (proj2 (same_message_iff uas uas c c') H).
Defined.

Lemma convert_opp (prec emax : Z) (v : spec_float) :
  convert prec emax (SFopp v) = SFopp (convert prec emax v).
Proof.
  destruct v as [s|s| |s m e]; try reflexivity.
  simpl. unfold binary_round. destruct (shl_align _ _ _) as [mz ez].
  unfold binary_round_aux. destruct (shr_fexp _ _ _ _ _) as [mrs1 e1].
  destruct (shr_fexp _ _ _ _ _) as [mrs2 e2].
  destruct (shr_m mrs2); try reflexivity. now destruct (_ <=? _).
Qed.

Lemma double_to_float_opp (d : float64) :
  double_to_float (opp64 d) = opp32 (double_to_float d).
Proof. destruct d as [v]. simpl. now rewrite convert_opp. Qed.

(** X11.  The conversion of the components commutes with a change of sign:
    a call with the opposite vectors sends the opposite fields, bit for bit,
    so a caller may flip an axis before or after the narrowing to [float]
    with the same result. *)
Theorem opposite_vectors_opposite_fields
    (uas : UAS.t) (time_boot_ms coordinate_frame type_mask lat_int lon_int : Z)
    (alt yaw yaw_rate thrust : float32) (p v af body_rate : Vector3d.t)
    (orientation : Quaterniond.t) :
  (let sp := sp_local_ned uas time_boot_ms coordinate_frame type_mask
               p v af yaw yaw_rate in
   let sn := sp_local_ned uas time_boot_ms coordinate_frame type_mask
               (Vector3d.neg p) (Vector3d.neg v) (Vector3d.neg af) yaw yaw_rate in
   (L.x sn = opp32 (L.x sp) /\ L.y sn = opp32 (L.y sp) /\ L.z sn = opp32 (L.z sp)) /\
   (L.vx sn = opp32 (L.vx sp) /\ L.vy sn = opp32 (L.vy sp) /\
    L.vz sn = opp32 (L.vz sp)) /\
   (L.afx sn = opp32 (L.afx sp) /\ L.afy sn = opp32 (L.afy sp) /\
    L.afz sn = opp32 (L.afz sp))) /\
  (let sp := sp_global_int uas time_boot_ms coordinate_frame type_mask
               lat_int lon_int alt v af yaw yaw_rate in
   let sn := sp_global_int uas time_boot_ms coordinate_frame type_mask
               lat_int lon_int alt (Vector3d.neg v) (Vector3d.neg af) yaw yaw_rate in
   (G.vx sn = opp32 (G.vx sp) /\ G.vy sn = opp32 (G.vy sp) /\
    G.vz sn = opp32 (G.vz sp)) /\
   (G.afx sn = opp32 (G.afx sp) /\ G.afy sn = opp32 (G.afy sp) /\
    G.afz sn = opp32 (G.afz sp))) /\
  (let sp := sp_attitude uas time_boot_ms type_mask orientation body_rate thrust in
   let sn := sp_attitude uas time_boot_ms type_mask orientation
               (Vector3d.neg body_rate) thrust in
   A.body_roll_rate sn = opp32 (A.body_roll_rate sp) /\
   A.body_pitch_rate sn = opp32 (A.body_pitch_rate sp) /\
   A.body_yaw_rate sn = opp32 (A.body_yaw_rate sp)).
Proof.
  cbn zeta. repeat split; apply double_to_float_opp.
Qed.

End MixinSequences.

(** ** Rounding to single precision *)

Section FloatRounding.
Import St Float Mixin.

Lemma digits2_size (p : positive) : digits2_pos p = Pos.size p.
Proof. induction p as [p IH|p IH|]; simpl; now rewrite ?IH. Qed.

Lemma Zdigits2_log2 (m : Z) : 0 < m -> Zdigits2 m = Z.log2 m + 1.
Proof.
  destruct m as [|p|p]; try lia. intros _. simpl. rewrite digits2_size.
  destruct p as [p|p|]; simpl; lia.
Qed.

Lemma shr_1_m (mrs : shr_record) :
  0 <= shr_m mrs -> shr_m (shr_1 mrs) = Z.div2 (shr_m mrs) /\ 0 <= shr_m (shr_1 mrs).
Proof.
  destruct mrs as [m r s]. simpl. destruct m as [|[p|p|]|p]; simpl; lia.
Qed.

Lemma shr_m_iter (p : positive) (mrs : shr_record) :
  0 <= shr_m mrs ->
  shr_m (SpecFloat.iter_pos shr_1 p mrs) = Z.shiftr (shr_m mrs) (Zpos p) /\
  0 <= shr_m (SpecFloat.iter_pos shr_1 p mrs).
Proof.
  intros Hm. rewrite iter_pos_iter.
  change (Z.shiftr (shr_m mrs) (Zpos p)) with (Pos.iter Z.div2 (shr_m mrs) p).
  induction p as [|p IH] using Pos.peano_ind.
  - simpl. now apply shr_1_m.
  - rewrite !Pos.iter_succ. destruct IH as [IH1 IH2].
    destruct (shr_1_m _ IH2) as [H1 H2]. rewrite H1, IH1. split; [reflexivity|].
    rewrite <- IH1, <- H1. exact H2.
Qed.

Lemma Zdigits2_shiftr (m n : Z) :
  0 < m -> 0 <= n -> Zdigits2 (Z.shiftr m n) = Z.max 0 (Zdigits2 m - n).
Proof.
  intros Hm Hn. rewrite (Zdigits2_log2 m Hm).
  destruct (Z.eq_dec (Z.shiftr m n) 0) as [E|E].
  - rewrite E. simpl. apply Z.shiftr_eq_0_iff in E. lia.
  - assert (Hpos : 0 < Z.shiftr m n).
    { pose proof (Z.shiftr_nonneg m n). lia. }
    rewrite (Zdigits2_log2 _ Hpos), Z.log2_shiftr by lia.
    assert (n <= Z.log2 m).
    { destruct (Z.le_gt_cases n (Z.log2 m)) as [H|H]; [exact H|].
      exfalso. apply E. apply Z.shiftr_eq_0; lia. }
    lia.
Qed.

Lemma shr_record_of_loc_m (m : Z) (l : location) : shr_m (shr_record_of_loc m l) = m.
Proof. destruct l as [|[]]; reflexivity. Qed.

Lemma shr_fexp_spec (m e : Z) (l : location) :
  0 <= m ->
  let n := fexp 24 128 (Zdigits2 m + e) - e in
  let r := shr_fexp 24 128 m e l in
  (0 < n /\ shr_m (fst r) = Z.shiftr m n /\ snd r = e + n) \/
  (n <= 0 /\ shr_m (fst r) = m /\ snd r = e).
Proof.
  intros Hm n r. subst r. unfold shr_fexp, shr. fold n.
  destruct n as [|p|p] eqn:Hn.
  - right. simpl. rewrite shr_record_of_loc_m. lia.
  - left. simpl fst. simpl snd.
    destruct (shr_m_iter p (shr_record_of_loc m l)) as [H1 _].
    { now rewrite shr_record_of_loc_m. }
    rewrite H1, shr_record_of_loc_m. lia.
  - right. simpl. rewrite shr_record_of_loc_m. lia.
Qed.

Lemma round_nearest_even_cases (m : Z) (l : location) :
  round_nearest_even m l = m \/ round_nearest_even m l = m + 1.
Proof.
  destruct l as [|[]]; simpl; auto. destruct (Z.even m); auto.
Qed.

Lemma Zdigits2_succ (m : Z) :
  0 <= m -> Zdigits2 (m + 1) = Zdigits2 m \/ Zdigits2 (m + 1) = Zdigits2 m + 1.
Proof.
  intros Hm. destruct (Z.eq_dec m 0) as [->|Hne]; [right; reflexivity|].
  rewrite !Zdigits2_log2 by lia.
  destruct (Z.log2_succ_or m) as [H|H]; unfold Z.succ in H; lia.
Qed.

Lemma Zdigits2_nonneg (m : Z) : 0 <= Zdigits2 m.
Proof. destruct m; simpl; lia. Qed.

Lemma Zdigits2_pos (m : Z) : 0 < m -> 0 < Zdigits2 m.
Proof. destruct m; simpl; lia. Qed.

Lemma binary_round_aux_valid (s : bool) (m e : Z) (l : location) :
  0 < m -> e <= fexp 24 128 (Zdigits2 m + e) ->
  valid_binary 24 128 (binary_round_aux 24 128 s m e l) = true.
Proof.
  intros Hm He. unfold binary_round_aux.
  pose proof (shr_fexp_spec m e l (Z.lt_le_incl _ _ Hm)) as H1. cbn zeta in H1.
  destruct (shr_fexp 24 128 m e l) as [mrs1 e1]. simpl fst in H1. simpl snd in H1.
  set (r := round_nearest_even (shr_m mrs1) (loc_of_shr_record mrs1)).
  assert (Hm1 : 0 <= shr_m mrs1).
  { destruct H1 as [(_ & -> & _)|(_ & -> & _)]; [apply Z.shiftr_nonneg|]; lia. }
  assert (Hr : 0 <= r) by (subst r; destruct (round_nearest_even_cases (shr_m mrs1)
                             (loc_of_shr_record mrs1)) as [->| ->]; lia).
  pose proof (shr_fexp_spec r e1 loc_Exact Hr) as H2. cbn zeta in H2.
  destruct (shr_fexp 24 128 r e1 loc_Exact) as [mrs2 e2]. simpl fst in H2. simpl snd in H2.
  destruct (shr_m mrs2) as [|m2|m2] eqn:Hm2; [reflexivity| |].
  2:{ exfalso. destruct H2 as [(_ & E & _)|(_ & E & _)]; rewrite E in Hm2.
      - pose proof (Z.shiftr_nonneg r (fexp 24 128 (Zdigits2 r + e1) - e1)). lia.
      - lia. }
  destruct (e2 <=? 128 - 24) eqn:Hle; [|reflexivity].
  simpl. unfold bounded. rewrite Hle, andb_true_r.
  unfold canonical_mantissa. apply Z.eqb_eq.
  change (Zpos (digits2_pos m2)) with (Zdigits2 (Zpos m2)).
  (* digits of the intermediate mantissas *)
  assert (Hd1 : (shr_m mrs1 = 0 /\ e1 = -149) \/
                (0 < shr_m mrs1 /\ fexp 24 128 (Zdigits2 (shr_m mrs1) + e1) = e1)).
  { pose proof (Zdigits2_pos m Hm) as Hdm.
    destruct H1 as [(Hn & E & Ee)|(Hn & E & Ee)].
    - pose proof (Zdigits2_shiftr m _ Hm (Z.lt_le_incl _ _ Hn)) as Hd.
      rewrite <- E in Hd.
      destruct (Z.eq_dec (shr_m mrs1) 0) as [E0|E0].
      + left. split; [exact E0|]. rewrite E0 in Hd. simpl in Hd.
        unfold fexp, emin in *. lia.
      + right. split; [lia|]. pose proof (Zdigits2_pos (shr_m mrs1)) as Hp.
        unfold fexp, emin in *. lia.
    - right. rewrite E, Ee. split; [lia|]. lia. }
  assert (Hdr : (r = shr_m mrs1 /\ Zdigits2 r = Zdigits2 (shr_m mrs1)) \/
                (r = shr_m mrs1 + 1 /\
                 (Zdigits2 r = Zdigits2 (shr_m mrs1) \/
                  Zdigits2 r = Zdigits2 (shr_m mrs1) + 1))).
  { subst r. destruct (round_nearest_even_cases (shr_m mrs1) (loc_of_shr_record mrs1))
      as [E|E]; [left; now rewrite E|right]. split; [exact E|]. rewrite E.
    now apply Zdigits2_succ. }
  assert (Hr0 : r = 0 -> Zdigits2 r = 0) by (intros ->; reflexivity).
  assert (Hrp : 0 < r -> 0 < Zdigits2 r) by apply Zdigits2_pos.
  assert (H10 : shr_m mrs1 = 0 -> Zdigits2 (shr_m mrs1) = 0) by (intros ->; reflexivity).
  destruct H2 as [(Hn & E & Ee)|(Hn & E & Ee)].
  - assert (Hrpos : 0 < r).
    { destruct (Z.eq_dec r 0) as [E0|E0]; [|lia].
      rewrite E0 in E. rewrite Z.shiftr_0_l in E. lia. }
    pose proof (Zdigits2_shiftr r _ Hrpos (Z.lt_le_incl _ _ Hn)) as Hd.
    rewrite <- E in Hd.
    pose proof (Zdigits2_pos (Zpos m2) eq_refl) as Hp2.
    unfold fexp, emin in *. lia.
  - rewrite E, Ee. unfold fexp, emin in *.
    assert (0 < r) by lia. specialize (Hrp H). lia.
Qed.

Lemma binary_round_valid (s : bool) (m : positive) (e : Z) :
  valid_binary 24 128 (binary_round 24 128 s m e) = true.
Proof.
  unfold binary_round, shl_align.
  set (e' := fexp 24 128 (Zpos (digits2_pos m) + e)).
  destruct (e' - e) as [|d|d] eqn:Hd.
  - apply binary_round_aux_valid; [reflexivity|]. simpl Zdigits2. fold e'. lia.
  - apply binary_round_aux_valid; [reflexivity|]. simpl Zdigits2. fold e'. lia.
  - apply binary_round_aux_valid; [reflexivity|]. simpl Zdigits2.
    rewrite digits2_shift.
    replace (Zpos (digits2_pos m + d) + e') with (Zpos (digits2_pos m) + e) by lia.
    fold e'. lia.
Qed.

Lemma convert_valid (v : spec_float) : valid_binary 24 128 (convert 24 128 v) = true.
Proof. destruct v; try reflexivity. apply binary_round_valid. Qed.

(** Whatever the [double], the [float] it becomes is a well-formed binary32
    number... *)
Lemma double_to_float_valid (d : float64) : valid32 (double_to_float d) = true.
Proof. destruct d as [v]. apply convert_valid. Qed.

(** ... so a second trip through [float] changes nothing. *)
Lemma through_float_stable (d : float64) :
  double_to_float (float_to_double (double_to_float d)) = double_to_float d.
Proof. apply float_round_trip, double_to_float_valid. Qed.

(** X12.  One trip through a message loses all that will ever be lost: the
    vector fields of a message hold well-formed single-precision numbers
    whatever [double]s were passed, and a call with the vectors read back
    from them puts the very same message together again. *)
Theorem read_back_resent_unchanged
    (uas : UAS.t) (time_boot_ms coordinate_frame type_mask lat_int lon_int : Z)
    (alt yaw yaw_rate thrust : float32) (p v af body_rate : Vector3d.t)
    (orientation : Quaterniond.t) :
  (let sp := sp_local_ned uas time_boot_ms coordinate_frame type_mask
               p v af yaw yaw_rate in
   Forall (fun f => valid32 f = true)
     [L.x sp; L.y sp; L.z sp; L.vx sp; L.vy sp; L.vz sp; L.afx sp; L.afy sp; L.afz sp] /\
   sp_local_ned uas time_boot_ms coordinate_frame type_mask
     (Vector3d.of_floats (L.x sp) (L.y sp) (L.z sp))
     (Vector3d.of_floats (L.vx sp) (L.vy sp) (L.vz sp))
     (Vector3d.of_floats (L.afx sp) (L.afy sp) (L.afz sp)) yaw yaw_rate = sp) /\
  (let sp := sp_global_int uas time_boot_ms coordinate_frame type_mask
               lat_int lon_int alt v af yaw yaw_rate in
   Forall (fun f => valid32 f = true)
     [G.vx sp; G.vy sp; G.vz sp; G.afx sp; G.afy sp; G.afz sp] /\
   sp_global_int uas time_boot_ms coordinate_frame type_mask lat_int lon_int alt
     (Vector3d.of_floats (G.vx sp) (G.vy sp) (G.vz sp))
     (Vector3d.of_floats (G.afx sp) (G.afy sp) (G.afz sp)) yaw yaw_rate = sp) /\
  (let sp := sp_attitude uas time_boot_ms type_mask orientation body_rate thrust in
   Forall (fun f => valid32 f = true)
     [A.body_roll_rate sp; A.body_pitch_rate sp; A.body_yaw_rate sp] /\
   sp_attitude uas time_boot_ms type_mask orientation
     (Vector3d.of_floats (A.body_roll_rate sp) (A.body_pitch_rate sp)
        (A.body_yaw_rate sp)) thrust = sp).
Proof.
  cbn zeta. split; [|split]; (split; [repeat constructor; apply double_to_float_valid|]).
  - unfold sp_local_ned, assign_local_ned. cbn. now rewrite !through_float_stable.
  - unfold sp_global_int, assign_global_int. cbn. now rewrite !through_float_stable.
  - unfold sp_attitude, assign_attitude. cbn. now rewrite !through_float_stable.
Qed.

End FloatRounding.

(** ** The orientation of [SET_ATTITUDE_TARGET] *)

Section AttitudeOrientation.
Import St Float Mixin Counting.

Lemma pigeonhole (n : Z) (f : Z -> Z) :
  0 <= n ->
  (forall k, 0 <= k <= n -> 0 <= f k < n) ->
  (forall i j, 0 <= i <= n -> 0 <= j <= n -> f i = f j -> i = j) ->
  False.
Proof.
  intros Hn Hr Hi.
  assert (Hd : NoDup (f <$> seqZ 0 (n + 1))).
  { apply NoDup_fmap_2_strong; [|apply NoDup_seqZ].
    intros x y Hx%elem_of_seqZ Hy%elem_of_seqZ. apply Hi; lia. }
  assert (Hs : f <$> seqZ 0 (n + 1) ⊆+ seqZ 0 n).
  { apply NoDup_submseteq; [exact Hd|].
    intros x (k & -> & Hk%elem_of_seqZ)%list_elem_of_fmap.
    apply elem_of_seqZ. specialize (Hr k). lia. }
  apply submseteq_length in Hs. rewrite length_fmap, !length_seqZ in Hs. lia.
Qed.

Lemma valid32_finite (s : bool) (m : positive) (e : Z) :
  valid32 (F32 (S754_finite s m e)) = true ->
  0 < Z.pos m < 16777216 /\ 0 <= e + 149 <= 253.
Proof.
  simpl. unfold bounded, canonical_mantissa, fexp, emin. intros H.
  apply andb_true_iff in H as [Hc He]. apply Z.eqb_eq in Hc. apply Z.leb_le in He.
  rewrite digits2_size in Hc.
  pose proof (Pos.size_gt m) as Hm.
  assert (Hsz : Z.pos (Pos.size m) <= 24) by lia.
  apply Pos2Z.pos_lt_pos in Hm. rewrite Pos2Z.inj_pow in Hm.
  pose proof (Z.pow_le_mono_r 2 (Z.pos (Pos.size m)) 24 ltac:(lia) Hsz) as Hp.
  change (2 ^ 24) with 16777216 in Hp. lia.
Qed.

Lemma code32_range (f : float32) :
  valid32 f = true -> 0 <= code32 f < codes32.
Proof.
  destruct f as [[s|s| |s m e]]; unfold codes32; simpl code32.
  - destruct s; lia.
  - destruct s; lia.
  - lia.
  - intros H%valid32_finite. destruct s; lia.
Qed.

Lemma code32_inj (f g : float32) :
  valid32 f = true -> valid32 g = true -> code32 f = code32 g -> f = g.
Proof.
  destruct f as [[s|s| |s m e]], g as [[s'|s'| |s' m' e']]; intros Hf Hg;
    try apply valid32_finite in Hf; try apply valid32_finite in Hg;
    simpl code32; intros H;
    try (destruct s, s'; (reflexivity || lia)); try reflexivity;
    try (destruct s; lia); try (destruct s'; lia).
  assert (s = s' /\ Z.pos m = Z.pos m' /\ e = e') as (-> & Hm & ->)
    by (destruct s, s'; lia).
  now injection Hm as ->.
Qed.


Lemma float4_inv (qmsg : list float32) :
  float4 qmsg = true ->
  exists a b c d, qmsg = [a; b; c; d] /\
    valid32 a = true /\ valid32 b = true /\ valid32 c = true /\ valid32 d = true.
Proof.
  unfold float4. intros [Hl Hv]%andb_true_iff. apply Nat.eqb_eq in Hl.
  destruct qmsg as [|a [|b [|c [|d [|]]]]]; try discriminate Hl.
  simpl in Hv. repeat (apply andb_true_iff in Hv as [? Hv]).
  exists a, b, c, d. auto.
Qed.

Lemma digit_split (b x y x' y' : Z) :
  0 <= x < b -> 0 <= x' < b -> x + b * y = x' + b * y' -> x = x' /\ y = y'.
Proof.
  intros Hx Hx' H. assert (y = y') by nia. subst y'. lia.
Qed.

Lemma digit_range (b n x y : Z) :
  0 <= x < b -> 0 <= y < n -> 0 <= x + b * y < b * n.
Proof. intros Hx Hy. nia. Qed.

Lemma code4_range (qmsg : list float32) :
  float4 qmsg = true -> 0 <= code4 qmsg < codes4.
Proof.
  intros (a & b & c & d & -> & Ha & Hb & Hc & Hd)%float4_inv.
  apply code32_range in Ha, Hb, Hc, Hd. unfold code4, codes4.
  pose proof (digit_range codes32 codes32 _ _ Hc Hd) as H3.
  pose proof (digit_range codes32 _ _ _ Hb H3) as H2.
  pose proof (digit_range codes32 _ _ _ Ha H2) as H1.
  replace (codes32 * codes32 * codes32 * codes32)
    with (codes32 * (codes32 * (codes32 * codes32))) by ring.
  exact H1.
Qed.

Lemma code4_inj (l l' : list float32) :
  float4 l = true -> float4 l' = true -> code4 l = code4 l' -> l = l'.
Proof.
  intros (a & b & c & d & -> & Ha & Hb & Hc & Hd)%float4_inv
         (a' & b' & c' & d' & -> & Ha' & Hb' & Hc' & Hd')%float4_inv.
  unfold code4. intros H.
  apply digit_split in H as [H1 H]; [|now apply code32_range..].
  apply digit_split in H as [H2 H]; [|now apply code32_range..].
  apply digit_split in H as [H3 H4]; [|now apply code32_range..].
  apply code32_inj in H1, H2, H3, H4; try assumption. now subst.
Qed.

Lemma dbl_valid (k : Z) :
  0 <= k < 4503599627370496 -> valid64 (dbl k) = true.
Proof.
  intros Hk. unfold dbl, valid64. simpl valid_binary.
  unfold bounded, canonical_mantissa. rewrite digits2_size.
  assert (Hs : Z.pos (Pos.size (Z.to_pos (4503599627370496 + k))) = 53).
  { pose proof (Z.log2_unique (4503599627370496 + k) 52) as Hl.
    change (2 ^ 52) with 4503599627370496 in Hl.
    change (2 ^ Z.succ 52) with 9007199254740992 in Hl.
    specialize (Hl ltac:(lia) ltac:(lia)).
    destruct (4503599627370496 + k) as [|p|p] eqn:E; try lia.
    simpl Z.to_pos. simpl in Hl. destruct p; simpl in *; lia. }
  rewrite Hs. reflexivity.
Qed.

Lemma dbl_inj (k k' : Z) :
  0 <= k -> 0 <= k' -> dbl k = dbl k' -> k = k'.
Proof.
  intros Hk Hk' H. unfold dbl in H. injection H as H.
  apply Z2Pos.inj in H; lia.
Qed.

Lemma nth_quaternion_valid (k : Z) :
  0 <= k <= codes4 -> valid_quaternion (nth_quaternion k) = true.
Proof.
  intros Hk. unfold valid_quaternion, nth_quaternion. cbn [Quaterniond.w Quaterniond.x Quaterniond.y Quaterniond.z].
  assert (H2 : 0 <= k / 4503599627370496 / 4503599627370496 < 4503599627370496).
  { split; [apply Z.div_pos; [apply Z.div_pos|]; lia|].
    apply Z.div_lt_upper_bound; [lia|]. apply Z.div_lt_upper_bound; [lia|].
    unfold codes4, codes32 in Hk. lia. }
  rewrite !dbl_valid; [reflexivity|try lia..].
  - apply Z.mod_pos_bound. lia.
  - apply Z.mod_pos_bound. lia.
Qed.

Lemma nth_quaternion_inj (i j : Z) :
  0 <= i -> 0 <= j ->
  Quaterniond.eq_up_to_sign (nth_quaternion i) (nth_quaternion j) -> i = j.
Proof.
  intros Hi Hj [H|H]; unfold nth_quaternion, Quaterniond.neg in H;
    cbn [Quaterniond.w Quaterniond.x Quaterniond.y Quaterniond.z] in H;
    [|discriminate H].
  injection H as H0 H1 H2.
  pose proof (Z.mod_pos_bound i 4503599627370496 ltac:(lia)).
  pose proof (Z.mod_pos_bound j 4503599627370496 ltac:(lia)).
  pose proof (Z.mod_pos_bound (i / 4503599627370496) 4503599627370496 ltac:(lia)).
  pose proof (Z.mod_pos_bound (j / 4503599627370496) 4503599627370496 ltac:(lia)).
  assert (0 <= i / 4503599627370496 / 4503599627370496)
    by (apply Z.div_pos; [apply Z.div_pos|]; lia).
  assert (0 <= j / 4503599627370496 / 4503599627370496)
    by (apply Z.div_pos; [apply Z.div_pos|]; lia).
  apply Z2Pos.inj in H0, H1, H2; try lia.
  pose proof (Z.div_mod i 4503599627370496 ltac:(lia)).
  pose proof (Z.div_mod j 4503599627370496 ltac:(lia)).
  pose proof (Z.div_mod (i / 4503599627370496) 4503599627370496 ltac:(lia)).
  pose proof (Z.div_mod (j / 4503599627370496) 4503599627370496 ltac:(lia)).
  lia.
Qed.

Lemma quaternion_neg_inj (q q' : Quaterniond.t) :
  Quaterniond.neg q = Quaterniond.neg q' -> q = q'.
Proof.
  assert (Ho : forall a b, opp64 a = opp64 b -> a = b).
  { intros [a] [b] H. injection H as H. f_equal.
    destruct a as [[]|[]| |[] ? ?], b as [[]|[]| |[] ? ?];
      simpl in H; congruence. }
  destruct q, q'. unfold Quaterniond.neg. simpl. intros H.
  injection H as Hw Hx Hy Hz. apply Ho in Hw, Hx, Hy, Hz. now subst.
Qed.

Lemma quaternion_neg_neg (q : Quaterniond.t) : Quaterniond.neg (Quaterniond.neg q) = q.
Proof.
  destruct q as [[w] [x] [y] [z]]. unfold Quaterniond.neg. simpl.
  f_equal; f_equal; match goal with |- SFopp (SFopp ?v) = _ => destruct v as [[]|[]| |[] ? ?] end; reflexivity.
Qed.

(** Two quaternions a third is equal to up to sign are equal up to sign. *)
Lemma eq_up_to_sign_join (a q q' : Quaterniond.t) :
  Quaterniond.eq_up_to_sign a q -> Quaterniond.eq_up_to_sign a q' ->
  Quaterniond.eq_up_to_sign q q'.
Proof.
  intros [->| ->] [H|H].
  - now left.
  - now right.
  - right. now rewrite <- H, quaternion_neg_neg.
  - left. now apply quaternion_neg_inj.
Qed.

(** Four [float]s cannot tell all quaternions of [double]s apart. *)
Lemma no_conversion_into_floats
    (enc : Quaterniond.t -> list float32) (dec : list float32 -> Quaterniond.t) :
  (forall q, float4 (enc q) = true) ->
  ~ (forall q, valid_quaternion q = true -> Quaterniond.eq_up_to_sign (dec (enc q)) q).
Proof.
  intros Henc Hall.
  apply (pigeonhole codes4 (fun k => code4 (enc (nth_quaternion k)))).
  - unfold codes4, codes32. lia.
  - intros k _. apply code4_range, Henc.
  - intros i j Hi Hj H. apply code4_inj in H; [|apply Henc..].
    apply nth_quaternion_inj; [lia..|].
    apply (eq_up_to_sign_join (dec (enc (nth_quaternion i)))).
    + apply Hall, nth_quaternion_valid, Hi.
    + rewrite H. apply Hall, nth_quaternion_valid, Hj.
Qed.

Lemma float_to_double_opp (f : float32) :
  float_to_double (opp32 f) = opp64 (float_to_double f).
Proof. destruct f as [v]. simpl. now rewrite convert_opp. Qed.

Lemma quaternion_wire_float4 (q : Quaterniond.t) :
  float4 (ftf.quaternion_to_mavlink q) = true.
Proof.
  unfold float4, ftf.quaternion_to_mavlink. simpl.
  now rewrite !double_to_float_valid.
Qed.

Lemma quaternion_wire_neg (q : Quaterniond.t) :
  ftf.mavlink_to_quaternion (ftf.quaternion_to_mavlink (Quaterniond.neg q)) =
  Quaterniond.neg (ftf.mavlink_to_quaternion (ftf.quaternion_to_mavlink q)).
Proof.
  unfold ftf.mavlink_to_quaternion, ftf.quaternion_to_mavlink, Quaterniond.neg.
  simpl. now rewrite !double_to_float_opp, !float_to_double_opp.
Qed.

Lemma quaternion_wire_stable (q : Quaterniond.t) :
  ftf.quaternion_to_mavlink
    (ftf.mavlink_to_quaternion (ftf.quaternion_to_mavlink q)) =
  ftf.quaternion_to_mavlink q.
Proof.
  unfold ftf.mavlink_to_quaternion, ftf.quaternion_to_mavlink. simpl.
  now rewrite !through_float_stable.
Qed.

(** C5, amended.  The [q] field of the message [set_attitude_target] sends is
    exactly what the quaternion conversion made of the orientation, untouched
    by the other statements, whatever that conversion is: decoding the field
    gives the orientation up to sign whenever decoding the output of the
    conversion does.  With the conversion that stores w, x, y, z in the four
    [float]s of the field, the field holds four well-formed [float]s and
    decoding it gives the orientation with each of its components rounded to
    single precision; this is the orientation itself, and so equal to it up
    to sign, exactly when the four components are representable as [float]s,
    as they are for every orientation that was itself decoded from four
    [float]s; the opposite orientation is decoded as the opposite quaternion;
    and the decoded quaternion, sent again, gives the same four [float]s. *)
Theorem attitude_orientation
    (uas : UAS.t) (time_boot_ms type_mask : Z) (orientation : Quaterniond.t)
    (body_rate : Vector3d.t) (thrust : float32) :
  (forall (msg_set_target : A.t -> State UAS.t A.t)
          (quaternion_to_mavlink : Quaterniond.t -> list float32)
          (mavlink_to_quaternion : list float32 -> Quaterniond.t),
     let sp := sp_attitude_via msg_set_target quaternion_to_mavlink uas
                 time_boot_ms type_mask orientation body_rate thrust in
     UAS.link (exec (set_attitude_target_via msg_set_target quaternion_to_mavlink
                       time_boot_ms type_mask orientation body_rate thrust) uas) =
       UAS.link (snd (msg_set_target A.zero uas)) ++ [UAS.AttitudeTarget sp] /\
     A.q sp = quaternion_to_mavlink orientation /\
     (Quaterniond.eq_up_to_sign
        (mavlink_to_quaternion (quaternion_to_mavlink orientation)) orientation ->
      Quaterniond.eq_up_to_sign (mavlink_to_quaternion (A.q sp)) orientation)) /\
  (let sp := sp_attitude uas time_boot_ms type_mask orientation body_rate thrust in
   let sn := sp_attitude uas time_boot_ms type_mask (Quaterniond.neg orientation)
               body_rate thrust in
   let decoded := ftf.mavlink_to_quaternion (A.q sp) in
   UAS.link (exec (set_attitude_target time_boot_ms type_mask orientation
                     body_rate thrust) uas) =
     UAS.link uas ++ [UAS.AttitudeTarget sp] /\
   A.q sp = ftf.quaternion_to_mavlink orientation /\
   float4 (A.q sp) = true /\
   decoded = Quaterniond.through_float orientation /\
   (decoded = orientation <-> Quaterniond.representable orientation) /\
   (Quaterniond.representable orientation ->
    Quaterniond.eq_up_to_sign decoded orientation) /\
   (forall fw fx fy fz : float32,
      valid32 fw = true -> valid32 fx = true ->
      valid32 fy = true -> valid32 fz = true ->
      orientation = ftf.mavlink_to_quaternion [fw; fx; fy; fz] ->
      A.q sp = [fw; fx; fy; fz] /\ decoded = orientation /\
      Quaterniond.eq_up_to_sign decoded orientation) /\
   ftf.mavlink_to_quaternion (A.q sn) = Quaterniond.neg decoded /\
   A.q (sp_attitude uas time_boot_ms type_mask decoded body_rate thrust) = A.q sp).
Proof.
  split.
  - intros mst q2m m2q. cbn zeta.
    unfold exec, set_attitude_target_via, sp_attitude_via, bind.
    destruct (mst A.zero uas) as [targeted uas1].
    split; [reflexivity|]. split; [now destruct targeted|].
    now destruct targeted.
  - cbn zeta.
    change (A.q (sp_attitude uas time_boot_ms type_mask orientation body_rate thrust))
      with (ftf.quaternion_to_mavlink orientation).
    change (A.q (sp_attitude uas time_boot_ms type_mask (Quaterniond.neg orientation)
                   body_rate thrust))
      with (ftf.quaternion_to_mavlink (Quaterniond.neg orientation)).
    split; [reflexivity|]. split; [reflexivity|].
    split; [apply quaternion_wire_float4|].
    rewrite quaternion_wire_trip. split; [reflexivity|].
    split; [apply quaternion_through_float_fixed|].
    split; [intros H; left; now apply quaternion_through_float_fixed|].
    split; [|split].
    + intros fw fx fy fz Hw Hx Hy Hz ->.
      assert (Hr : Quaterniond.through_float
                     (ftf.mavlink_to_quaternion [fw; fx; fy; fz]) =
                   ftf.mavlink_to_quaternion [fw; fx; fy; fz]).
      { apply quaternion_through_float_fixed.
        unfold Quaterniond.representable, ftf.mavlink_to_quaternion. simpl.
        repeat split; auto using float_representable. }
      split; [|split; [exact Hr | left; exact Hr]].
      unfold ftf.quaternion_to_mavlink, ftf.mavlink_to_quaternion. simpl.
      now rewrite !float_round_trip.
    + rewrite <- quaternion_wire_trip. apply quaternion_wire_neg.
    + rewrite <- quaternion_wire_trip.
      change (A.q (sp_attitude uas time_boot_ms type_mask
                     (ftf.mavlink_to_quaternion (ftf.quaternion_to_mavlink orientation))
                     body_rate thrust))
        with (ftf.quaternion_to_mavlink
                (ftf.mavlink_to_quaternion (ftf.quaternion_to_mavlink orientation))).
      apply quaternion_wire_stable.
Qed.

(** C5, an instance: the quaternion (1/2, 1/2, 1/2, 1/2) comes back as
    sent. *)
Lemma attitude_orientation_witness :
  let q := Quaterniond.mk half64 half64 half64 half64 in
  let o := Vector3d.mk zero64 zero64 zero64 in
  let uas := UAS.mk 1 1 [] in
  let sp := sp_attitude uas 0 0 q o zero32 in
  (Quaterniond.eq_up_to_sign
     (ftf.mavlink_to_quaternion (ftf.quaternion_to_mavlink q)) q /\
   Quaterniond.eq_up_to_sign
     (ftf.mavlink_to_quaternion
        (A.q (sp_attitude_via UAS.msg_set_target ftf.quaternion_to_mavlink
                uas 0 0 q o zero32))) q) /\
  (Quaterniond.representable q /\
   Quaterniond.eq_up_to_sign (ftf.mavlink_to_quaternion (A.q sp)) q) /\
  ((valid32 half32 = true /\
    q = ftf.mavlink_to_quaternion [half32; half32; half32; half32]) /\
   A.q sp = [half32; half32; half32; half32]).
Proof.
  intros q o uas sp.
  assert (Hq : Quaterniond.representable q) by (repeat split).
  assert (He : Quaterniond.eq_up_to_sign
                 (ftf.mavlink_to_quaternion (ftf.quaternion_to_mavlink q)) q)
    by (left; reflexivity).
  pose proof (attitude_orientation uas 0 0 q o zero32) as (Hp & _ & _ & _ & _ & _ & Hr & Hf & _).
  split; [|split].
  - split; [exact He|].
    exact (proj2 (proj2 (Hp UAS.msg_set_target ftf.quaternion_to_mavlink
                           ftf.mavlink_to_quaternion)) He).
  - split; [exact Hq | exact (Hr Hq)].
  - split; [split; reflexivity|].
    exact (proj1 (Hf half32 half32 half32 half32 eq_refl eq_refl eq_refl eq_refl
                    eq_refl)).
Defined.

(** C5 as it is written fails.  For the orientation (0.6, 0.8, 0, 0), a
    rotation about the x axis given by the [double]s nearest to 0.6 and 0.8,
    the decoded quaternion holds the [float]s nearest to 0.6 and 0.8 and is
    neither the orientation nor its opposite.  No other conversion does
    better: the orientation holds four [double]s and the field four
    [float]s, so whatever conversion fills the field with well-formed
    [float]s and whatever decoding reads it, some orientation does not come
    back up to sign. *)
Lemma attitude_orientation_counterexample :
  (let q := Quaterniond.mk six_tenths64 eight_tenths64 zero64 zero64 in
   let o := Vector3d.mk zero64 zero64 zero64 in
   let sp := sp_attitude (UAS.mk 1 1 []) 0 0 q o zero32 in
   valid_quaternion q = true /\
   A.q sp = [F32 (S754_finite false 10066330 (-24));
             F32 (S754_finite false 13421773 (-24)); zero32; zero32] /\
   (let w' := Quaterniond.w (ftf.mavlink_to_quaternion (A.q sp)) in
    eqb64 w' (Quaterniond.w q) = false /\
    eqb64 w' (Quaterniond.w (Quaterniond.neg q)) = false) /\
   ~ Quaterniond.eq_up_to_sign (ftf.mavlink_to_quaternion (A.q sp)) q) /\
  (forall q, float4 (ftf.quaternion_to_mavlink q) = true) /\
  (forall (msg_set_target : A.t -> State UAS.t A.t)
          (quaternion_to_mavlink : Quaterniond.t -> list float32)
          (mavlink_to_quaternion : list float32 -> Quaterniond.t)
          (uas : UAS.t) (time_boot_ms type_mask : Z)
          (body_rate : Vector3d.t) (thrust : float32),
     (forall q, float4 (quaternion_to_mavlink q) = true) ->
     ~ (forall q, valid_quaternion q = true ->
          Quaterniond.eq_up_to_sign
            (mavlink_to_quaternion
               (A.q (sp_attitude_via msg_set_target quaternion_to_mavlink uas
                       time_boot_ms type_mask q body_rate thrust))) q)).
Proof.
  split.
  - cbn zeta. split; [reflexivity|]. split; [reflexivity|].
    split; [split; reflexivity|].
    intros [H|H]; vm_compute in H; discriminate H.
  - split; [exact quaternion_wire_float4|].
    intros mst q2m m2q uas t m br th Hw Hall.
    apply (no_conversion_into_floats q2m m2q Hw).
    intros q Hq. specialize (Hall q Hq).
    unfold sp_attitude_via in Hall. now destruct (fst (mst A.zero uas)).
Qed.

End AttitudeOrientation.
